(** * check_theme_parity.py: a shallow embedding and its properties

    The script [internal/tui/scripts/check_theme_parity.py] lists the theme
    directories of the Bash tree, parses up to three files per theme and
    prints a few fields of each for a visual comparison.

    Modelling choices.
    - A Python [str] is a [string]; every [ascii] stands for the code point
      of the same number, so the development covers text whose code points
      are below 256.  The built-ins the script calls ([in], [startswith],
      [strip], [split], [lower], [repr], the one regular expression) are
      written out in [Module PyStr] with Python's behaviour on that range.
    - A [dict] is a [gmap]; only membership, [get] and item assignment are
      used by the script, so insertion order is not observable.
    - The file system is a tree of [node]s and a path is its list of
      components: [os.path.join] only ever appends names that come out of
      [os.listdir] or are fixed literals.  A regular file either opens and
      decodes, or cannot be opened, or stops decoding after some text.
    - Exceptions and standard output are threaded by a small monad [M]:
      the list of [print] calls made so far, and either a value or the
      exception that ended the run. *)

From Stdlib Require Import Ascii NArith.
From stdpp Require Import gmap strings list.

(** ** Exceptions *)

Inductive exn : Set :=
  | OSError      (* FileNotFoundError, NotADirectoryError, IsADirectoryError, PermissionError *)
  | IndexError
  | KeyError
  | ValueError
  | UnicodeDecodeError.   (* a ValueError by inheritance; raised by the decoder only *)

Inductive result (A : Type) : Type :=
  | Ok (a : A)
  | Raise (e : exn).
Arguments Ok {A} a.
Arguments Raise {A} e.

Global Instance result_ret : MRet result := @Ok.
Global Instance result_bind : MBind result := λ A B k r,
  match r with
  | Ok a => k a
  | Raise e => Raise e
  end.

(** A [for] loop whose body may raise: the first exception ends the loop. *)
Fixpoint for_fold {A S} (body : S → A → result S) (s : S) (xs : list A) : result S :=
  match xs with
  | [] => Ok s
  | x :: xs' => s' ← body s x; for_fold body s' xs'
  end.

(** ** Python's [str] built-ins, on code points below 256 *)

Module PyStr.

Definition code (c : ascii) : N := N_of_ascii c.

(** [str.isspace] of one character: 9-13, 28-32, 0x85 and 0xA0. *)
Definition isspace (c : ascii) : bool :=
  let n := code c in
  ((9 <=? n) && (n <=? 13) || (28 <=? n) && (n <=? 32)
   || (n =? 133) || (n =? 160))%N.

(** [c in chars] for a one-character [c]. *)
Fixpoint mem (c : ascii) (chars : string) : bool :=
  match chars with
  | "" => false
  | String d r => Ascii.eqb c d || mem c r
  end.

Fixpoint startswith (s pre : string) {struct pre} : bool :=
  match pre, s with
  | "", _ => true
  | String p pre', String c s' => Ascii.eqb c p && startswith s' pre'
  | String _ _, "" => false
  end.

(** [sub in s]: some suffix of [s] starts with [sub]. *)
Fixpoint contains (sub s : string) : bool :=
  startswith s sub ||
  match s with
  | "" => false
  | String _ r => contains sub r
  end.

(** [lstrip], [rstrip] and [strip] over a predicate on characters;
    [strip ()] uses [isspace], [strip (chars)] uses membership in
    [chars]. *)
Fixpoint lstrip_by (p : ascii → bool) (s : string) : string :=
  match s with
  | "" => ""
  | String c r => if p c then lstrip_by p r else s
  end.

Fixpoint rstrip_by (p : ascii → bool) (s : string) : string :=
  match s with
  | "" => ""
  | String c r =>
      match rstrip_by p r with
      | "" => if p c then "" else String c ""
      | r' => String c r'
      end
  end.

Definition strip_by (p : ascii → bool) (s : string) : string :=
  rstrip_by p (lstrip_by p s).

Definition strip (s : string) : string := strip_by isspace s.
Definition strip_chars (chars s : string) : string :=
  strip_by (λ c, mem c chars) s.

(** [s.partition (sep)] for a one-character separator, [None] when the
    separator does not occur. *)
Fixpoint cut (sep : ascii) (s : string) : option (string * string) :=
  match s with
  | "" => None
  | String c r =>
      if Ascii.eqb c sep then Some ("", r)
      else match cut sep r with
           | Some (a, b) => Some (String c a, b)
           | None => None
           end
  end.

(** [s.split (sep, maxsplit)] for a one-character separator. *)
Fixpoint split_max (sep : ascii) (maxsplit : nat) (s : string) : list string :=
  match maxsplit with
  | 0 => [s]
  | S n =>
      match cut sep s with
      | Some (a, b) => a :: split_max sep n b
      | None => [s]
      end
  end.

(** [s.split (sep)]: no limit; a string has at most [length s]
    separators. *)
Definition split (sep : ascii) (s : string) : list string :=
  split_max sep (String.length s) s.

(** [str.lower] of one character: A-Z, and 0xC0-0xDE without 0xD7. *)
Definition lower_char (c : ascii) : ascii :=
  let n := code c in
  if ((65 <=? n) && (n <=? 90)
      || (192 <=? n) && (n <=? 222) && negb (n =? 215))%N
  then ascii_of_N (n + 32) else c.

Fixpoint lower (s : string) : string :=
  match s with
  | "" => ""
  | String c r => String (lower_char c) (lower r)
  end.

(** *** [repr] of a string and of a list of strings *)

Definition hex_digit (n : N) : ascii :=
  if (n <? 10)%N then ascii_of_N (48 + n) else ascii_of_N (87 + n).

(** [str.isprintable] of one character. *)
Definition isprintable (c : ascii) : bool :=
  let n := code c in
  ((32 <=? n) && (n <=? 126) || (161 <=? n) && negb (n =? 173))%N.

Definition backslash : ascii := "092".
Definition squote : ascii := "039".
Definition dquote : ascii := "034".

Definition repr_char (quote c : ascii) : string :=
  if Ascii.eqb c quote || Ascii.eqb c backslash
  then String backslash (String c "")
  else if Ascii.eqb c "009" then String backslash "t"
  else if Ascii.eqb c "010" then String backslash "n"
  else if Ascii.eqb c "013" then String backslash "r"
  else if isprintable c then String c ""
  else String backslash (String "x"
         (String (hex_digit (code c / 16)) (String (hex_digit (code c mod 16)) ""))).

Fixpoint repr_body (quote : ascii) (s : string) : string :=
  match s with
  | "" => ""
  | String c r => repr_char quote c +:+ repr_body quote r
  end.

Definition repr (s : string) : string :=
  let quote : ascii :=
    if mem squote s && negb (mem dquote s) then dquote else squote in
  String quote (repr_body quote s +:+ String quote "").

Fixpoint join (sep : string) (xs : list string) : string :=
  match xs with
  | [] => ""
  | [x] => x
  | x :: xs' => x +:+ sep +:+ join sep xs'
  end.

Definition repr_list (xs : list string) : string :=
  "[" +:+ join ", " (repr <$> xs) +:+ "]".

(** *** The regular expression [\(([^)]+)\)]

    [plus_close s] matches [[^)]+\)] at the start of [s] the way the
    backtracking matcher does: the character class takes one character,
    first tries to take more, and only then tries to stop. It returns
    group 1. *)
Fixpoint plus_close (s : string) : option string :=
  match s with
  | "" => None
  | String c r =>
      if Ascii.eqb c ")" then None
      else match plus_close r with
           | Some g => Some (String c g)
           | None =>
               match r with
               | String d _ => if Ascii.eqb d ")" then Some (String c "") else None
               | "" => None
               end
           end
  end.

(** [re.search (pattern, s)] followed by [group (1)]: the leftmost
    position where the pattern matches. *)
Fixpoint search_group (s : string) : option string :=
  match s with
  | "" => None
  | String c r =>
      if Ascii.eqb c "("
      then match plus_close r with
           | Some g => Some g
           | None => search_group r
           end
      else search_group r
  end.

(** *** Reading a text file line by line

    A file opened with [open (path, 'r')] is in universal-newlines mode:
    [\r\n] and a lone [\r] are read as [\n], and iteration yields the
    lines with their [\n]. *)
Fixpoint translate_newlines (s : string) : string :=
  match s with
  | "" => ""
  | String c r =>
      if Ascii.eqb c "013" then
        match r with
        | String d r' =>
            if Ascii.eqb d "010" then String "010" (translate_newlines r')
            else String "010" (translate_newlines r)
        | "" => String "010" ""
        end
      else String c (translate_newlines r)
  end.

Fixpoint lines (s : string) : list string :=
  match s with
  | "" => []
  | String c r =>
      if Ascii.eqb c "010" then String c "" :: lines r
      else match lines r with
           | [] => [String c ""]
           | l :: ls => String c l :: ls
           end
  end.

Definition readlines (text : string) : list string :=
  lines (translate_newlines text).

End PyStr.

Import PyStr.

(** ** The file system *)

#[local] Set Warnings "-register-all".
Inductive node : Type :=
  | File (text : string)      (* a regular file that opens and decodes to [text] *)
  | Dir (entries : list (string * node))
  | Locked                    (* a regular file that [open] refuses: PermissionError *)
  | Garbled (text : string).  (* a regular file that opens and decodes to [text],
                                 after which its bytes do not decode *)

Definition path : Type := list string.

Fixpoint lookup_entry (name : string) (entries : list (string * node)) : option node :=
  match entries with
  | [] => None
  | (n, x) :: rest => if String.eqb n name then Some x else lookup_entry name rest
  end.

(** The node a path leads to, from the root of the tree. *)
Fixpoint resolve (fs : node) (p : path) : option node :=
  match p with
  | [] => Some fs
  | name :: p' =>
      match fs with
      | Dir entries =>
          match lookup_entry name entries with
          | Some x => resolve x p'
          | None => None
          end
      | _ => None
      end
  end.

(** [os.path.exists] *)
Definition exists_ (fs : node) (p : path) : bool :=
  match resolve fs p with
  | Some _ => true
  | None => false
  end.

(** [os.path.isdir] *)
Definition isdir (fs : node) (p : path) : bool :=
  match resolve fs p with
  | Some (Dir _) => true
  | _ => false
  end.

(** [os.listdir]: the names in the directory, in the order the directory
    holds them; an [OSError] when the path is absent or is a file. *)
Definition listdir (fs : node) (p : path) : result (list string) :=
  match resolve fs p with
  | Some (Dir entries) => Ok (entries.*1)
  | _ => Raise OSError
  end.

(** [open (path, 'r')] and iteration over the file. [open] raises an
    [OSError] when the path is absent, is a directory or is a file that
    cannot be opened. Iteration then gives the lines read, and the
    exception that ends it where the bytes stop decoding. *)
Definition open_lines (fs : node) (p : path) : result (list string * option exn) :=
  match resolve fs p with
  | Some (File text) => Ok (readlines text, None)
  | Some (Garbled text) => Ok (readlines text, Some UnicodeDecodeError)
  | Some (Dir _) | Some Locked | None => Raise OSError
  end.

(** ** The three parsers *)

Definition GO_THEMES_DIR : path :=
  ["c:"; "Users"; "CLHat"; "Documents"; "GitHub"; "GhostWriters";
   "DockSTARTer2"; "internal"; "assets"; "themes"].
Definition BASH_THEMES_DIR : path :=
  ["c:"; "Users"; "CLHat"; "Documents"; "GitHub"; "GhostWriters";
   "DockSTARTer"; "assets"; "themes"].

(** [key, val = xs] *)
Definition unpack2 (xs : list string) : result (string * string) :=
  match xs with
  | [a; b] => Ok (a, b)
  | _ => Raise ValueError
  end.

(** [d[k] = v] for the assignment a loop body makes, if it makes one. *)
Definition setitem {V} (e : option (string * V)) (d : gmap string V) : gmap string V :=
  match e with
  | Some (k, v) => <[k:=v]> d
  | None => d
  end.

(** The argument of the second [strip]: the single and the double quote. *)
Definition quotes : string := String squote (String dquote "").

(** Body of the loop of [parse_ds2theme]: the assignment to [colors] that
    one line makes. *)
Definition ds2theme_line (line : string) : result (option (string * string)) :=
  if contains "=" line then
    '(key, val) ← unpack2 (split_max "=" 1 line);
    Ok (Some (strip key, strip_chars quotes (strip val)))
  else Ok None.

(** Body of the loop of [parse_dialogrc]. *)
Definition dialogrc_line (line : string) : result (option (string * list string)) :=
  if contains "=" line && contains "(" line then
    '(key, val) ← unpack2 (split_max "=" 1 line);
    match search_group val with
    | Some group1 => Ok (Some (strip key, split "," group1))
    | None => Ok None
    end
  else Ok None.

(** Body of the loop of [parse_theme_ini]. *)
Definition theme_ini_line (line : string) : result (option (string * string)) :=
  if contains "=" line && negb (startswith line "#") then
    '(key, val) ← unpack2 (split_max "=" 1 line);
    Ok (Some (strip key, strip_chars quotes (strip val)))
  else Ok None.

(** The shape the three parsers share: an empty dict, returned at once
    when the path does not exist and otherwise filled line by line. *)
Definition fill {V} (body : string → result (option (string * V)))
    (colors : gmap string V) (f : list string) : result (gmap string V) :=
  for_fold (λ colors line, e ← body line; Ok (setitem e colors)) colors f.

Definition parse_with {V} (body : string → result (option (string * V)))
    (fs : node) (p : path) : result (gmap string V) :=
  if negb (exists_ fs p) then Ok ∅
  else
    '(f, stop) ← open_lines fs p;
    colors ← fill body ∅ f;
    match stop with
    | Some e => Raise e
    | None => Ok colors
    end.

Definition parse_ds2theme : node → path → result (gmap string string) :=
  parse_with ds2theme_line.
Definition parse_dialogrc : node → path → result (gmap string (list string)) :=
  parse_with dialogrc_line.
Definition parse_theme_ini : node → path → result (gmap string string) :=
  parse_with theme_ini_line.

(** ** Standard output and the reporter *)

Record M (A : Type) : Type := Run { stdout : list string; outcome : result A }.
Arguments Run {A} stdout outcome.
Arguments stdout {A} m.
Arguments outcome {A} m.

Global Instance M_ret : MRet M := λ A a, Run [] (Ok a).
Global Instance M_bind : MBind M := λ A B k m,
  match outcome m with
  | Ok a => Run (stdout m ++ stdout (k a)) (outcome (k a))
  | Raise e => Run (stdout m) (Raise e)
  end.

(** One [print] call; its text is one element of [stdout]. *)
Definition print (s : string) : M () := Run [s] (Ok ()).
Definition lift {A} (r : result A) : M A := Run [] r.

Fixpoint for_each {A} (xs : list A) (body : A → M ()) : M () :=
  match xs with
  | [] => mret ()
  | x :: xs' => body x;; for_each xs' body
  end.

(** [k in d], [d[k]], [d.get (k)] and [l[i]] *)
Definition has_key {V} (d : gmap string V) (k : string) : bool :=
  match d !! k with
  | Some _ => true
  | None => false
  end.
Definition getitem {V} (d : gmap string V) (k : string) : result V :=
  match d !! k with
  | Some v => Ok v
  | None => Raise KeyError
  end.
Definition index (l : list string) (i : nat) : result string :=
  match l !! i with
  | Some x => Ok x
  | None => Raise IndexError
  end.

(** What an f-string shows for the result of [d.get (k)]: the string
    itself, the [repr] of a list, [None] for a missing key. *)
Definition show_str (o : option string) : string :=
  match o with
  | Some s => s
  | None => "None"
  end.
Definition show_list (o : option (list string)) : string :=
  match o with
  | Some l => repr_list l
  | None => "None"
  end.

(** The nested helper of [check_parity]. *)
Definition get_bash_color (val : string) : string * bool :=
  let res :=
    if contains "${_W_}" val then "white"
    else if contains "${_G_}" val then "green"
    else if contains "${_C_}" val then "cyan"
    else if contains "${_M_}" val then "magenta"
    else if contains "${_Y_}" val then "yellow"
    else if contains "${_R_}" val then "red"
    else if contains "${_B_}" val then "blue"
    else if contains "${_K_}" val then "black"
    else "NC" in
  let is_rev := contains "${_RV_}" val in
  (res, is_rev).

Definition header_keys : list string :=
  ["Title"; "Subtitle"; "TitleSuccess"; "TitleError"; "TitleWarning"].

Definition go_path (name : string) : path :=
  GO_THEMES_DIR ++ [name +:+ ".ds2theme"].
Definition bash_ini_path (name : string) : path :=
  BASH_THEMES_DIR ++ [name; "theme.ini"].
Definition bash_rc_path (name : string) : path :=
  BASH_THEMES_DIR ++ [name; ".dialogrc"].

Definition check_parity (fs : node) (name : string) : M () :=
  print ("--- Checking " +:+ name +:+ " ---");;
  go ← lift (parse_ds2theme fs (go_path name));
  ini ← lift (parse_theme_ini fs (bash_ini_path name));
  rc ← lift (parse_dialogrc fs (bash_rc_path name));
  screen_bg ←
    (if has_key rc "screen_color" then
       lift (color ← getitem rc "screen_color";
             bg ← index color 1;
             Ok (lower (strip bg)))
     else mret "black");
  for_each header_keys (λ k,
    if has_key ini k && has_key go k then
      '(b_col, b_rev) ← lift (v ← getitem ini k; Ok (get_bash_color v));
      mret ()
    else mret ());;
  print ("Go Title: " +:+ show_str (go !! "Title"));;
  print ("Bash Title: " +:+ show_str (ini !! "Title"));;
  print ("Bash dialogrc Title: " +:+ show_list (rc !! "title_color"));;
  print ("Bash dialogrc Screen: " +:+ show_list (rc !! "screen_color"));;
  print "".

(** The list comprehension at the end of the script. *)
Definition themes (fs : node) : result (list string) :=
  names ← listdir fs BASH_THEMES_DIR;
  Ok (List.filter (λ d, isdir fs (BASH_THEMES_DIR ++ [d])) names).

Definition main (fs : node) : M () :=
  ts ← lift (themes fs);
  for_each ts (check_parity fs).

(** ** Words of the specification

    The predicates below say in terms of concatenation what the claims say
    in prose; the theorems relate the functions above to them. *)

(** [c] occurs in [s]. *)
Definition occurs (c : ascii) (s : string) : Prop :=
  ∃ l r, s = l +:+ String c r.

Fixpoint all_chars (p : ascii → bool) (s : string) : bool :=
  match s with
  | "" => true
  | String c r => p c && all_chars p r
  end.

(** [m] is [s] without the longest run of [p]-characters at either end. *)
Definition trimmed (p : ascii → bool) (s m : string) : Prop :=
  ∃ a b, s = a +:+ m +:+ b
         ∧ all_chars p a = true ∧ all_chars p b = true
         ∧ (∀ c r, m = String c r → p c = false)
         ∧ (∀ r c, m = r +:+ String c "" → p c = false).

Definition is_quote (c : ascii) : bool := Ascii.eqb c squote || Ascii.eqb c dquote.

(** [parts] are the pieces of [s] between its occurrences of [sep]. *)
Definition pieces (sep : ascii) (s : string) (parts : list string) : Prop :=
  join (String sep "") parts = s ∧ parts ≠ [] ∧ Forall (λ x, ¬ occurs sep x) parts.

(** In [s], after the prefix [pre], stands a parenthesised group whose
    interior [g] is not empty: an opening parenthesis, at least one
    character other than the closing one, the closing one. *)
Definition group_at (s pre g : string) : Prop :=
  ∃ post, s = pre +:+ String "(" (g +:+ String ")" post)
          ∧ g ≠ "" ∧ ¬ occurs ")" g.

(** [g] is the interior of the leftmost such group of [s]. *)
Definition first_group (s g : string) : Prop :=
  ∃ pre, group_at s pre g
         ∧ ∀ pre' g', group_at s pre' g' → String.length pre ≤ String.length pre'.

(** The value of the last line, in file order, that assigns to [k]. *)
Fixpoint last_value {V} (body : string → result (option (string * V)))
    (k : string) (f : list string) : option V :=
  match f with
  | [] => None
  | line :: f' =>
      match last_value body k f' with
      | Some v => Some v
      | None =>
          match body line with
          | Ok (Some (k', v)) => if String.eqb k' k then Some v else None
          | _ => None
          end
      end
  end.

(** The reporter without the unfinished colour comparison: neither the
    screen background nor the loop over the header keys. *)
Definition check_parity_plain (fs : node) (name : string) : M () :=
  print ("--- Checking " +:+ name +:+ " ---");;
  go ← lift (parse_ds2theme fs (go_path name));
  ini ← lift (parse_theme_ini fs (bash_ini_path name));
  rc ← lift (parse_dialogrc fs (bash_rc_path name));
  print ("Go Title: " +:+ show_str (go !! "Title"));;
  print ("Bash Title: " +:+ show_str (ini !! "Title"));;
  print ("Bash dialogrc Title: " +:+ show_list (rc !! "title_color"));;
  print ("Bash dialogrc Screen: " +:+ show_list (rc !! "screen_color"));;
  print "".

(** The report block of one theme, for the three dicts it was built from;
    a missing key shows as [None]. *)
Definition report_block (name : string) (go ini : gmap string string)
    (rc : gmap string (list string)) : list string :=
  [ "--- Checking " +:+ name +:+ " ---";
    "Go Title: " +:+ match go !! "Title" with Some v => v | None => "None" end;
    "Bash Title: " +:+ match ini !! "Title" with Some v => v | None => "None" end;
    "Bash dialogrc Title: "
      +:+ match rc !! "title_color" with Some l => repr_list l | None => "None" end;
    "Bash dialogrc Screen: "
      +:+ match rc !! "screen_color" with Some l => repr_list l | None => "None" end;
    "" ].

(** The immediate subdirectories of a directory, by name, in its order. *)
Definition is_dir_node (x : node) : bool :=
  match x with
  | Dir _ => true
  | _ => false
  end.
Definition subdirs (entries : list (string * node)) : list string :=
  (List.filter (λ e, is_dir_node e.2) entries).*1.

(** ** Example trees *)

Fixpoint under (p : path) (x : node) : node :=
  match p with
  | [] => x
  | d :: p' => Dir [(d, under p' x)]
  end.

(** A tree with the given contents of the two theme directories. *)
Definition tree (go_entries bash_entries : list (string * node)) : node :=
  under ["c:"; "Users"; "CLHat"; "Documents"; "GitHub"; "GhostWriters"]
    (Dir [ ("DockSTARTer2", under ["internal"; "assets"; "themes"] (Dir go_entries));
           ("DockSTARTer", under ["assets"; "themes"] (Dir bash_entries)) ]).

Definition nl : string := String "010" "".

(** A theme whose [.dialogrc] gives [screen_color] one element only. *)
Definition short_screen_tree : node :=
  tree [] [ ("Bad", Dir [ (".dialogrc", File ("screen_color = (BLACK)" +:+ nl)) ]) ].

(** A theme whose [theme.ini] is a directory. *)
Definition ini_dir_tree : node :=
  tree [] [ ("Worse", Dir [ ("theme.ini", Dir []) ]) ].

(** A theme with all three files, next to a plain file and a theme that
    has no file at all. *)
Definition green_bash : list (string * node) :=
  [ ("Green", Dir [ ("theme.ini", File ("# c=1" +:+ nl +:+ "Title=${_W_}" +:+ nl));
                    (".dialogrc", File ("screen_color = (BLACK,GREEN,ON)" +:+ nl)) ]);
    ("readme.txt", File "x");
    ("Empty", Dir []) ].
Definition green_tree : node :=
  tree [ ("Green.ds2theme", File ("Title='{{|white:black:U|}}'" +:+ nl)) ]
       green_bash.

(** A descriptor that assigns [Title] twice. *)
Definition twice_tree : node :=
  tree [ ("Twice.ds2theme", File ("Title=first" +:+ nl +:+ "Other=x" +:+ nl
                                  +:+ "Title=second" +:+ nl)) ]
       [].

(** A tree in which the Bash theme directory is a plain file. *)
Definition no_root_tree : node :=
  under ["c:"; "Users"; "CLHat"; "Documents"; "GitHub"; "GhostWriters";
         "DockSTARTer"; "assets"]
    (Dir [ ("themes", File "") ]).

(** ** Further words for the properties of the whole script *)

(** [sub] occurs in [s] as a run of consecutive characters. *)
Definition substring (sub s : string) : Prop :=
  ∃ l r, s = l +:+ sub +:+ r.

(** [m] neither starts nor ends with a [p]-character. *)
Definition edge_free (p : ascii → bool) (m : string) : Prop :=
  (∀ c r, m = String c r → p c = false)
  ∧ (∀ r c, m = r +:+ String c "" → p c = false).

Fixpoint last_char (s : string) : option ascii :=
  match s with
  | "" => None
  | String c "" => Some c
  | String _ r => last_char r
  end.

(** [edge_free], decided. *)
Definition edge_freeb (p : ascii → bool) (m : string) : bool :=
  match m with
  | "" => true
  | String c _ => negb (p c)
  end
  && match last_char m with
     | Some c => negb (p c)
     | None => true
     end.

(** The tokens [get_bash_color] looks for, with the names it gives them,
    in the order of its chain of tests. *)
Definition color_tokens : list (string * string) :=
  [ ("${_W_}", "white"); ("${_G_}", "green"); ("${_C_}", "cyan");
    ("${_M_}", "magenta"); ("${_Y_}", "yellow"); ("${_R_}", "red");
    ("${_B_}", "blue"); ("${_K_}", "black") ].

(** The name of the first token of a table that occurs in [val]. *)
Fixpoint pick (table : list (string * string)) (val : string) : string :=
  match table with
  | [] => "NC"
  | (tok, name) :: rest => if contains tok val then name else pick rest val
  end.

(** A line feed or a carriage return. *)
Definition is_linebreak (c : ascii) : bool :=
  Ascii.eqb c "010" || Ascii.eqb c "013".

(** What the run prints for a list of themes that are all reported. *)
Definition blocks (fs : node) (ts : list string) : list string :=
  concat ((λ t, stdout (check_parity fs t)) <$> ts).

(** Three themes: the second has a one-element [screen_color]. *)
Definition three_themes_tree : node :=
  tree [ ("A.ds2theme", File ("Title=a" +:+ nl)) ]
       [ ("A", Dir []);
         ("B", Dir [ (".dialogrc", File ("screen_color = (BLACK)" +:+ nl)) ]);
         ("C", Dir []) ].

(** A descriptor in one piece, and the same text in two files. *)
Definition parts_tree : node :=
  tree [ ("Whole.ds2theme", File ("Title=first" +:+ nl +:+ "Other=x" +:+ nl
                                  +:+ "Title=second" +:+ nl));
         ("First.ds2theme", File ("Title=first" +:+ nl +:+ "Other=x" +:+ nl));
         ("Second.ds2theme", File ("Title=second" +:+ nl)) ]
       [].

(** [open] refuses the path although something is there. *)
Definition cannot_open (fs : node) (p : path) : Prop :=
  (∃ entries, resolve fs p = Some (Dir entries)) ∨ resolve fs p = Some Locked.

(** The file at the path opens, and its bytes stop decoding. *)
Definition undecodable (fs : node) (p : path) : Prop :=
  ∃ text, resolve fs p = Some (Garbled text).

(** Files for the rules of single lines, and files that cannot be read. *)
Definition rule_tree : node :=
  tree [ ("Wrapped.ds2theme", File (" Title  =  ' a b '  " +:+ nl +:+ "Other=x" +:+ nl));
         ("Locked.ds2theme", Locked);
         ("Garbled.ds2theme", Garbled ("Title=a" +:+ nl)) ]
       [ ("Groups", Dir [ (".dialogrc", File ("k=()(a,b)" +:+ nl +:+ "k=()" +:+ nl)) ]);
         ("Dark", Dir [ ("theme.ini", Garbled "") ]) ].

(** ** Facts about the string functions *)

Section StringFacts.

Lemma app_cons c a b : String c a +:+ b = String c (a +:+ b).
Proof. reflexivity. Qed.

Lemma app_empty_l a : "" +:+ a = a.
Proof. reflexivity. Qed.

Lemma app_empty_r a : a +:+ "" = a.
Proof. induction a as [|c a IH]; [done|]. by rewrite app_cons, IH. Qed.

Lemma app_assoc' a b c : (a +:+ b) +:+ c = a +:+ b +:+ c.
Proof. induction a as [|x a IH]; [done|]. by rewrite !app_cons, IH. Qed.

Lemma app_eq_empty a b : a +:+ b = "" → a = "" ∧ b = "".
Proof. destruct a; [done|]. by rewrite app_cons. Qed.

Lemma app_length a b : String.length (a +:+ b) = String.length a + String.length b.
Proof. induction a as [|x a IH]; [done|]. rewrite app_cons. simpl. by rewrite IH. Qed.

Lemma not_occurs_empty c : ¬ occurs c "".
Proof. intros (l & r & H). symmetry in H. by apply app_eq_empty in H as [_ ?]. Qed.

Lemma occurs_cons c d s : occurs c (String d s) ↔ d = c ∨ occurs c s.
Proof.
  split.
  - intros ([|x l] & r & H).
    + rewrite app_empty_l in H. injection H as -> _. by left.
    + rewrite app_cons in H. injection H as _ ->. right. by exists l, r.
  - intros [-> | (l & r & ->)].
    + by exists "", s.
    + by exists (String d l), r.
Qed.

Lemma mem_occurs c s : mem c s = true ↔ occurs c s.
Proof.
  induction s as [|d s IH]; simpl.
  - split; [done|]. intros H. by apply not_occurs_empty in H.
  - rewrite occurs_cons, orb_true_iff, IH, Ascii.eqb_eq. intuition congruence.
Qed.

Lemma mem_false_occurs c s : mem c s = false ↔ ¬ occurs c s.
Proof. rewrite <- mem_occurs. by destruct (mem c s). Qed.

Lemma contains_single c s : contains (String c "") s = mem c s.
Proof.
  induction s as [|d s IH]; [done|].
  simpl. rewrite IH, andb_true_r. by rewrite Ascii.eqb_sym.
Qed.

(** The first occurrence. *)
Lemma occurs_first c s :
  occurs c s → ∃ l r, s = l +:+ String c r ∧ ¬ occurs c l.
Proof.
  induction s as [|d s IH]; intros H.
  - by apply not_occurs_empty in H.
  - destruct (Ascii.eqb_spec d c) as [->|Hne].
    + exists "", s. split; [done|]. apply not_occurs_empty.
    + apply occurs_cons in H as [?|H]; [done|].
      destruct (IH H) as (l & r & -> & Hl).
      exists (String d l), r. split; [done|].
      rewrite occurs_cons. tauto.
Qed.

(** *** [cut] and [split] *)

Lemma cut_app sep a b :
  ¬ occurs sep a → cut sep (a +:+ String sep b) = Some (a, b).
Proof.
  induction a as [|c a IH]; intros Ha.
  - rewrite app_empty_l. simpl. by rewrite Ascii.eqb_refl.
  - rewrite app_cons. simpl. rewrite occurs_cons in Ha.
    destruct (Ascii.eqb_spec c sep) as [->|_]; [tauto|].
    rewrite IH; tauto.
Qed.

Lemma cut_None sep s : ¬ occurs sep s → cut sep s = None.
Proof.
  induction s as [|c s IH]; [done|]. rewrite occurs_cons. intros H. simpl.
  destruct (Ascii.eqb_spec c sep) as [->|_]; [tauto|].
  rewrite IH; tauto.
Qed.

Lemma cut_Some sep s a b :
  cut sep s = Some (a, b) → s = a +:+ String sep b ∧ ¬ occurs sep a.
Proof.
  revert a. induction s as [|c s IH]; intros a; [done|]. simpl.
  destruct (Ascii.eqb_spec c sep) as [->|Hne].
  - intros [= <- <-]. split; [done|]. apply not_occurs_empty.
  - destruct (cut sep s) as [[a' b']|]; [|done].
    intros [= <- <-]. destruct (IH a' eq_refl) as [-> Ha'].
    split; [done|]. rewrite occurs_cons. tauto.
Qed.

Lemma cut_None_inv sep s : cut sep s = None → ¬ occurs sep s.
Proof.
  intros Hcut Hocc. apply occurs_first in Hocc as (l & r & -> & Hl).
  by rewrite cut_app in Hcut.
Qed.

Lemma split_max_pieces sep n s :
  String.length s ≤ n → pieces sep s (split_max sep n s).
Proof.
  revert s. induction n as [|n IH]; intros s Hn.
  - destruct s; [|simpl in Hn; lia].
    repeat split; [done|]. repeat constructor. apply not_occurs_empty.
  - simpl. destruct (cut sep s) as [[a b]|] eqn:Hcut.
    + apply cut_Some in Hcut as [-> Ha].
      rewrite app_length in Hn. simpl in Hn.
      destruct (IH b) as (Hj & Hne & Hall); [lia|].
      split; [|split; [done|by constructor]].
      simpl. destruct (split_max sep n b) as [|x xs]; [done|].
      rewrite Hj. by rewrite app_cons, app_empty_l.
    + repeat split; [done|]. repeat constructor. by apply cut_None_inv.
Qed.

Lemma split_pieces sep s : pieces sep s (split sep s).
Proof. by apply split_max_pieces. Qed.

End StringFacts.

Section StripFacts.
Variable p : ascii → bool.

Lemma lstrip_by_spec s :
  ∃ a, s = a +:+ lstrip_by p s ∧ all_chars p a = true
       ∧ ∀ c r, lstrip_by p s = String c r → p c = false.
Proof.
  induction s as [|c s (a & Hs & Ha & Hfirst)]; simpl.
  - by exists "".
  - destruct (p c) eqn:Hc.
    + exists (String c a). rewrite app_cons, <- Hs. simpl. by rewrite Hc, Ha.
    + exists "". split_and!; [done|done|]. by intros ? ? [= <- _].
Qed.

Lemma rstrip_by_spec s :
  ∃ b, s = rstrip_by p s +:+ b ∧ all_chars p b = true
       ∧ ∀ r c, rstrip_by p s = r +:+ String c "" → p c = false.
Proof.
  induction s as [|c s (b & Hs & Hb & Hlast)]; simpl.
  - exists "". split_and!; [done|done|].
    intros r c H. symmetry in H. by apply app_eq_empty in H as [_ ?].
  - destruct (rstrip_by p s) as [|d m] eqn:Hm.
    + rewrite app_empty_l in Hs. subst b. destruct (p c) eqn:Hc.
      * exists (String c s). simpl. rewrite Hc, Hb. split_and!; [done|done|].
        intros r x H. symmetry in H. by apply app_eq_empty in H as [_ ?].
      * exists s. split_and!; [done|done|].
        intros [|y r] x H.
        -- by injection H as <-.
        -- rewrite app_cons in H. injection H as _ H.
           symmetry in H. by apply app_eq_empty in H as [_ ?].
    + exists b. rewrite app_cons, <- Hs. split_and!; [done|done|].
      intros [|y r] x H.
      * done.
      * rewrite app_cons in H. injection H as _ H. by apply (Hlast r).
Qed.

Lemma strip_by_trimmed s : trimmed p s (strip_by p s).
Proof.
  unfold strip_by.
  destruct (lstrip_by_spec s) as (a & Hs & Ha & Hfirst).
  destruct (rstrip_by_spec (lstrip_by p s)) as (b & Hm & Hb & Hlast).
  exists a, b. split_and!; [by rewrite <- Hm| done | done | | done].
  intros c r Hr. apply (Hfirst c (r +:+ b)).
  by rewrite Hm, Hr.
Qed.

Lemma all_chars_ext q s :
  (∀ c, p c = q c) → all_chars p s = all_chars q s.
Proof. intros E. induction s as [|c s IH]; [done|]. simpl. by rewrite E, IH. Qed.

Lemma trimmed_ext q s m :
  (∀ c, p c = q c) → trimmed p s m → trimmed q s m.
Proof.
  intros E (a & b & Hs & Ha & Hb & Hf & Hl). exists a, b.
  rewrite <- !(all_chars_ext q) by done.
  split_and!; [done|done|done| |].
  - intros c r H. rewrite <- E. eauto.
  - intros r c H. rewrite <- E. eauto.
Qed.

End StripFacts.

Lemma mem_quotes c : mem c quotes = is_quote c.
Proof. unfold is_quote. simpl. by rewrite orb_false_r. Qed.

Lemma strip_trimmed s : trimmed isspace s (strip s).
Proof. apply strip_by_trimmed. Qed.

Lemma strip_quotes_trimmed s : trimmed is_quote s (strip_chars quotes s).
Proof.
  eapply trimmed_ext; [|apply strip_by_trimmed]. intros c. apply mem_quotes.
Qed.

(** *** The regular expression *)

Lemma plus_close_app g post :
  g ≠ "" → ¬ occurs ")" g → plus_close (g +:+ String ")" post) = Some g.
Proof.
  induction g as [|c g IH]; [done|]. intros _ Hno.
  rewrite occurs_cons in Hno. rewrite app_cons. simpl.
  destruct (Ascii.eqb_spec c ")") as [->|_]; [tauto|].
  destruct g as [|d g].
  - done.
  - rewrite IH; [done|done|tauto].
Qed.

Lemma plus_close_Some s g :
  plus_close s = Some g →
  g ≠ "" ∧ ¬ occurs ")" g ∧ ∃ post, s = g +:+ String ")" post.
Proof.
  revert g. induction s as [|c s IH]; intros g; [done|]. simpl.
  destruct (Ascii.eqb_spec c ")") as [->|Hc]; [done|].
  destruct (plus_close s) as [g'|].
  - intros [= <-]. destruct (IH g' eq_refl) as (_ & Hno & post & ->).
    split_and!; [done| |by exists post].
    rewrite occurs_cons. tauto.
  - destruct s as [|d s]; [done|].
    destruct (Ascii.eqb_spec d ")") as [->|_]; [|done].
    intros [= <-]. split_and!; [done| |by exists s].
    rewrite occurs_cons. intros [?|H]; [done|]. by apply not_occurs_empty in H.
Qed.

Lemma group_at_here r g :
  group_at (String "(" r) "" g ↔ plus_close r = Some g.
Proof.
  split.
  - intros (post & H & Hne & Hno). rewrite app_empty_l in H.
    injection H as ->. by apply plus_close_app.
  - intros (Hne & Hno & post & ->)%plus_close_Some. by exists post.
Qed.

Lemma group_at_cons c r pre g :
  group_at (String c r) (String c pre) g ↔ group_at r pre g.
Proof.
  split; intros (post & H & Hne & Hno); exists post; split_and!; try done.
  - rewrite app_cons in H. by injection H.
  - by rewrite app_cons, H.
Qed.

Lemma group_at_head c r d pre g : group_at (String c r) (String d pre) g → c = d.
Proof. intros (post & H & _). rewrite app_cons in H. by injection H. Qed.

Lemma search_group_Some s g :
  search_group s = Some g → ∃ pre, group_at s pre g.
Proof.
  induction s as [|c s IH]; [done|]. simpl. intros H.
  assert (search_group s = Some g → ∃ pre, group_at (String c s) pre g) as Hrec.
  { intros (pre & Hpre)%IH. exists (String c pre). by apply group_at_cons. }
  destruct (Ascii.eqb_spec c "(") as [->|_]; [|by apply Hrec].
  destruct (plus_close s) as [g'|] eqn:Hpc; [|by apply Hrec].
  injection H as ->. exists "". by apply group_at_here.
Qed.

Lemma search_group_first s g : first_group s g → search_group s = Some g.
Proof.
  induction s as [|c s IH]; intros (pre & Hat & Hmin).
  - destruct Hat as (post & H & _). symmetry in H.
    apply app_eq_empty in H as [_ ?]. done.
  - simpl. destruct pre as [|d pre].
    + destruct Hat as (post & H & Hne & Hno). rewrite app_empty_l in H.
      injection H as -> ->. simpl. by rewrite plus_close_app.
    + pose proof (group_at_head _ _ _ _ _ Hat) as <-.
      apply group_at_cons in Hat.
      assert (search_group s = Some g) as Hs.
      { apply IH. exists pre. split; [done|]. intros pre' g' H'.
        apply (group_at_cons c) in H'. apply Hmin in H'. simpl in H'. lia. }
      destruct (Ascii.eqb_spec c "(") as [->|_]; [|done].
      destruct (plus_close s) as [g'|] eqn:Hpc; [|done].
      apply group_at_here, Hmin in Hpc. simpl in Hpc. lia.
Qed.

Lemma search_group_None s :
  (∀ pre rest, s = pre +:+ String "(" rest → ¬ occurs ")" rest) →
  search_group s = None.
Proof.
  intros Hno. destruct (search_group s) as [g|] eqn:Hs; [|done].
  apply search_group_Some in Hs as (pre & post & -> & _).
  destruct (Hno pre (g +:+ String ")" post) eq_refl). by exists g, post.
Qed.

Lemma group_at_empty_pre c s g : group_at (String c s) "" g → c = "("%char.
Proof. intros (post & H & _). rewrite app_empty_l in H. by injection H. Qed.

Lemma search_group_Some_first s g : search_group s = Some g → first_group s g.
Proof.
  induction s as [|c s IH]; [done|]. simpl. intros H.
  assert (search_group s = Some g →
          (∀ g', ¬ group_at (String c s) "" g') →
          first_group (String c s) g) as Hrec.
  { intros (pre & Hat & Hmin)%IH Hnot. exists (String c pre).
    split; [by apply group_at_cons|].
    intros [|d pre'] g' Hat'; [by destruct (Hnot g')|].
    pose proof (group_at_head _ _ _ _ _ Hat') as <-.
    apply group_at_cons, Hmin in Hat'. simpl. lia. }
  destruct (Ascii.eqb_spec c "(") as [->|Hc].
  - destruct (plus_close s) as [g'|] eqn:Hpc.
    + injection H as ->. exists "". split; [by apply group_at_here|].
      intros. simpl. lia.
    + apply Hrec; [done|]. intros g' Hat%group_at_here. congruence.
  - apply Hrec; [done|]. intros g' Hat%group_at_empty_pre. done.
Qed.

Lemma group_at_search s pre g : group_at s pre g → ∃ g', search_group s = Some g'.
Proof.
  revert s. induction pre as [|c pre IH]; intros s Hat.
  - destruct Hat as (post & -> & Hne & Hno). rewrite app_empty_l. simpl.
    rewrite plus_close_app by done. eauto.
  - destruct s as [|d s].
    { destruct Hat as (post & H & _). by rewrite app_cons in H. }
    pose proof (group_at_head _ _ _ _ _ Hat) as ->.
    apply group_at_cons, IH in Hat as [g' Hg']. simpl. rewrite Hg'.
    destruct (Ascii.eqb c "("); [|eauto]. destruct (plus_close s); eauto.
Qed.

(** ** The loop bodies of the parsers *)

Lemma split_first l r :
  ¬ occurs "=" l → split_max "=" 1 (l +:+ String "=" r) = [l; r].
Proof. intros Hl. simpl. by rewrite cut_app. Qed.

Lemma contains_eq_app l r : contains "=" (l +:+ String "=" r) = true.
Proof. rewrite contains_single. apply mem_occurs. by exists l, r. Qed.

Lemma contains_eq_false line : ¬ occurs "=" line → contains "=" line = false.
Proof. rewrite contains_single. apply mem_false_occurs. Qed.

Lemma ds2theme_line_app l r :
  ¬ occurs "=" l →
  ds2theme_line (l +:+ String "=" r)
  = Ok (Some (strip l, strip_chars quotes (strip r))).
Proof.
  intros Hl. unfold ds2theme_line.
  by rewrite contains_eq_app, split_first.
Qed.

Lemma dialogrc_line_app l r :
  ¬ occurs "=" l →
  dialogrc_line (l +:+ String "=" r)
  = if contains "(" (l +:+ String "=" r)
    then match search_group r with
         | Some group1 => Ok (Some (strip l, split "," group1))
         | None => Ok None
         end
    else Ok None.
Proof.
  intros Hl. unfold dialogrc_line. rewrite contains_eq_app. simpl andb.
  destruct (contains "(" _); [|done]. by rewrite split_first.
Qed.

Lemma theme_ini_line_ds2theme line :
  theme_ini_line line
  = if startswith line "#" then Ok None else ds2theme_line line.
Proof.
  unfold theme_ini_line, ds2theme_line.
  by destruct (contains "=" line), (startswith line "#").
Qed.

(** No loop body raises: a line with [=] always unpacks into two parts. *)
Lemma ds2theme_line_total line : ∃ e, ds2theme_line line = Ok e.
Proof.
  destruct (mem "=" line) eqn:Hm.
  - apply mem_occurs, occurs_first in Hm as (l & r & -> & Hl).
    rewrite ds2theme_line_app by done. eauto.
  - unfold ds2theme_line. rewrite contains_single, Hm. eauto.
Qed.

Lemma theme_ini_line_total line : ∃ e, theme_ini_line line = Ok e.
Proof.
  rewrite theme_ini_line_ds2theme.
  destruct (startswith line "#"); [eauto|apply ds2theme_line_total].
Qed.

Lemma dialogrc_line_total line : ∃ e, dialogrc_line line = Ok e.
Proof.
  destruct (mem "=" line) eqn:Hm.
  - apply mem_occurs, occurs_first in Hm as (l & r & -> & Hl).
    rewrite dialogrc_line_app by done.
    destruct (contains "(" _); [|eauto]. destruct (search_group r); eauto.
  - unfold dialogrc_line. rewrite contains_single, Hm. eauto.
Qed.

(** ** The loop over the lines *)

Lemma fill_step {V} (body : string → result (option (string * V))) colors line f :
  fill body colors (line :: f) = e ← body line; fill body (setitem e colors) f.
Proof. unfold fill. simpl. by destruct (body line). Qed.

Lemma parse_with_File {V} (body : string → result (option (string * V))) fs p text :
  resolve fs p = Some (File text) →
  parse_with body fs p = fill body ∅ (readlines text).
Proof.
  intros Hp. unfold parse_with, exists_, open_lines. rewrite Hp. simpl.
  by destruct (fill body ∅ (readlines text)).
Qed.

Section Fill.
Context {V : Type} (body : string → result (option (string * V))).
Hypothesis body_total : ∀ line, ∃ e, body line = Ok e.

Lemma fill_cons colors line f e :
  body line = Ok e → fill body colors (line :: f) = fill body (setitem e colors) f.
Proof. intros H. unfold fill. simpl. by rewrite H. Qed.

Lemma fill_last_value f : ∀ colors,
  ∃ m, fill body colors f = Ok m
       ∧ ∀ k, m !! k = match last_value body k f with
                       | Some v => Some v
                       | None => colors !! k
                       end.
Proof.
  induction f as [|line f IH]; intros colors.
  - by exists colors.
  - destruct (body_total line) as [e He].
    destruct (IH (setitem e colors)) as (m & Hm & Hk).
    exists m. split; [by rewrite (fill_cons _ _ _ e)|].
    intros k. rewrite Hk. simpl.
    destruct (last_value body k f); [done|]. rewrite He.
    destruct e as [[k' v]|]; [|done]. simpl.
    destruct (String.eqb_spec k' k) as [->|Hne].
    + by rewrite lookup_insert_eq.
    + by rewrite lookup_insert_ne.
Qed.

Lemma parse_with_file fs p text :
  resolve fs p = Some (File text) →
  ∃ m, parse_with body fs p = Ok m
       ∧ ∀ k, m !! k = last_value body k (readlines text).
Proof.
  intros Hp. rewrite (parse_with_File _ _ _ text) by done.
  destruct (fill_last_value (readlines text) ∅) as (m & Hm & Hk).
  exists m. split; [done|]. intros k. rewrite Hk, lookup_empty.
  by destruct (last_value _ _ _).
Qed.

End Fill.

Lemma parse_with_missing {V} (body : string → result (option (string * V))) fs p :
  resolve fs p = None → parse_with body fs p = Ok ∅.
Proof. intros Hp. unfold parse_with, exists_. by rewrite Hp. Qed.

(** What cannot be opened, and what stops decoding. *)
Lemma parse_with_unopened {V} (body : string → result (option (string * V))) fs p :
  (∃ entries, resolve fs p = Some (Dir entries)) ∨ resolve fs p = Some Locked →
  parse_with body fs p = Raise OSError.
Proof.
  intros [[entries Hp]|Hp]; unfold parse_with, exists_, open_lines; by rewrite Hp.
Qed.

Lemma parse_with_Garbled {V} (body : string → result (option (string * V))) fs p text :
  (∀ line, ∃ e, body line = Ok e) →
  resolve fs p = Some (Garbled text) →
  parse_with body fs p = Raise UnicodeDecodeError.
Proof.
  intros Htotal Hp. unfold parse_with, exists_, open_lines. rewrite Hp. simpl.
  by destruct (fill_last_value body Htotal (readlines text) ∅) as (m & -> & _).
Qed.

(** ** The reporter *)

Lemma for_each_silent {A} (xs : list A) (body : A → M ()) :
  (∀ x, body x = mret ()) → for_each xs body = mret ().
Proof.
  intros Hbody. induction xs as [|x xs IH]; [done|].
  simpl. by rewrite Hbody, IH.
Qed.

(** The loop over the header keys prints nothing and raises nothing:
    [ini[k]] is only read under the guard [k in ini]. *)
Lemma header_loop_silent (go ini : gmap string string) :
  for_each header_keys (λ k,
    if has_key ini k && has_key go k then
      '(b_col, b_rev) ← lift (v ← getitem ini k; Ok (get_bash_color v));
      mret ()
    else mret ()) = mret ().
Proof.
  apply for_each_silent. intros k. unfold has_key, getitem.
  destruct (ini !! k); [|done]. by destruct (go !! k).
Qed.

Lemma bind_lift_Ok {A B} (a : A) (k : A → M B) : lift (Ok a) ≫= k = k a.
Proof. unfold mbind, M_bind. simpl. by destruct (k a). Qed.

Lemma bind_mret {A B} (a : A) (k : A → M B) : mret a ≫= k = k a.
Proof. apply bind_lift_Ok. Qed.

Lemma check_parity_parsed fs name go ini rc :
  parse_ds2theme fs (go_path name) = Ok go →
  parse_theme_ini fs (bash_ini_path name) = Ok ini →
  parse_dialogrc fs (bash_rc_path name) = Ok rc →
  check_parity fs name =
    match rc !! "screen_color" with
    | Some color =>
        match color !! 1 with
        | Some _ => Run (report_block name go ini rc) (Ok ())
        | None => Run ["--- Checking " +:+ name +:+ " ---"] (Raise IndexError)
        end
    | None => Run (report_block name go ini rc) (Ok ())
    end
  ∧ check_parity_plain fs name = Run (report_block name go ini rc) (Ok ()).
Proof.
  intros Hgo Hini Hrc. unfold check_parity, check_parity_plain.
  rewrite Hgo, Hini, Hrc, !bind_lift_Ok. split; [|done].
  rewrite header_loop_silent, bind_mret.
  unfold has_key, getitem, index, report_block.
  destruct (rc !! "screen_color") as [color|]; [|done].
  simpl. by destruct (color !! 1).
Qed.

(** ** Theme discovery *)

Lemma resolve_app fs p q :
  resolve fs (p ++ q) = match resolve fs p with
                        | Some x => resolve x q
                        | None => None
                        end.
Proof.
  revert fs. induction p as [|d p IH]; intros fs; [done|]. simpl.
  destruct fs as [text|entries| |text]; [done| |done|done].
  destruct (lookup_entry d entries); [apply IH|done].
Qed.

Lemma isdir_child fs root entries d :
  resolve fs root = Some (Dir entries) →
  isdir fs (root ++ [d]) = match lookup_entry d entries with
                           | Some x => is_dir_node x
                           | None => false
                           end.
Proof.
  intros Hroot. unfold isdir. rewrite resolve_app, Hroot. simpl.
  by destruct (lookup_entry d entries) as [[]|].
Qed.

Lemma lookup_entry_NoDup entries n x :
  NoDup entries.*1 → (n, x) ∈ entries → lookup_entry n entries = Some x.
Proof.
  induction entries as [|[m y] entries IH]; simpl.
  - by intros _ ?%elem_of_nil.
  - intros [Hm Hnd]%NoDup_cons [[= -> ->]|Hin]%elem_of_cons.
    + by rewrite String.eqb_refl.
    + destruct (String.eqb_spec m n) as [->|_]; [|by apply IH].
      destruct Hm. apply list_elem_of_fmap. by exists (n, x).
Qed.

Lemma filter_names (g : string → bool) (entries : list (string * node)) :
  (∀ n x, (n, x) ∈ entries → g n = is_dir_node x) →
  List.filter g entries.*1 = subdirs entries.
Proof.
  unfold subdirs. induction entries as [|[n x] entries IH]; intros Hg; [done|].
  change (List.filter g ((n, x) :: entries).*1)
    with (if g n then n :: List.filter g entries.*1 else List.filter g entries.*1).
  rewrite (Hg n x) by apply list_elem_of_here.
  rewrite IH by (intros ???; by apply Hg, list_elem_of_further).
  simpl. by destruct (is_dir_node x).
Qed.

Lemma themes_subdirs fs entries :
  resolve fs BASH_THEMES_DIR = Some (Dir entries) →
  NoDup entries.*1 →
  themes fs = Ok (subdirs entries).
Proof.
  intros Hroot Hnd. unfold themes, listdir. rewrite Hroot.
  cbn [mbind result_bind]. f_equal. apply filter_names. intros n x Hin.
  rewrite (isdir_child _ _ entries) by done.
  by rewrite (lookup_entry_NoDup _ _ x).
Qed.

Lemma themes_no_root fs :
  (resolve fs BASH_THEMES_DIR = None
   ∨ ∃ text, resolve fs BASH_THEMES_DIR = Some (File text)) →
  themes fs = Raise OSError.
Proof. unfold themes, listdir. by intros [->|[text ->]]. Qed.

(** Away from a [screen_color] of fewer than two elements the reporter
    and its plain variant agree, on what they print and on how they end. *)
Lemma check_parity_plain_agrees (fs : node) (name : string) :
  (∀ rc color, parse_dialogrc fs (bash_rc_path name) = Ok rc →
               rc !! "screen_color" = Some color → 2 ≤ length color) →
  check_parity fs name = check_parity_plain fs name.
Proof.
  intros Hlen.
  destruct (parse_ds2theme fs (go_path name)) as [go|e] eqn:Hgo;
    [|by unfold check_parity, check_parity_plain; rewrite Hgo].
  destruct (parse_theme_ini fs (bash_ini_path name)) as [ini|e] eqn:Hini;
    [|by unfold check_parity, check_parity_plain; rewrite Hgo, Hini].
  destruct (parse_dialogrc fs (bash_rc_path name)) as [rc|e] eqn:Hrc;
    [|by unfold check_parity, check_parity_plain; rewrite Hgo, Hini, Hrc].
  destruct (check_parity_parsed fs name go ini rc Hgo Hini Hrc) as [-> ->].
  destruct (rc !! "screen_color") as [color|] eqn:Hcolor; [|done].
  specialize (Hlen rc color eq_refl Hcolor).
  destruct color as [|fg [|bg color]]; simpl in *; [lia|lia|done].
Qed.

(** A parser returns a dict exactly when its path is absent or leads to a
    regular file. *)
Lemma parse_with_Ok {V} (body : string → result (option (string * V))) fs p :
  (∀ line, ∃ e, body line = Ok e) →
  (∃ m, parse_with body fs p = Ok m)
  ↔ resolve fs p = None ∨ ∃ text, resolve fs p = Some (File text).
Proof.
  intros Htotal. split.
  - intros [m Hm].
    destruct (resolve fs p) as [[text|entries| |text]|] eqn:Hp; eauto.
    + rewrite parse_with_unopened in Hm; [done|eauto].
    + rewrite parse_with_unopened in Hm; [done|eauto].
    + by rewrite (parse_with_Garbled _ _ _ text) in Hm.
  - intros [Hp|[text Hp]].
    + exists ∅. by apply parse_with_missing.
    + destruct (parse_with_file body Htotal fs p text Hp) as (m & Hm & _). eauto.
Qed.

(** The list stored by the dialog parser has one element exactly when the
    interior of the group has no comma. *)
Lemma split_one_part g : length (split "," g) < 2 ↔ ¬ occurs "," g.
Proof.
  destruct (split_pieces "," g) as (Hj & Hne & Hall).
  destruct (split "," g) as [|x [|y parts]]; [done|..].
  - simpl in *. subst x. split; [|lia]. intros _. by inversion Hall.
  - split; [simpl; lia|]. intros []. exists x, (join "," (y :: parts)).
    by rewrite <- Hj.
Qed.

(** ** The scenarios of the specification *)

Example scenario_descriptor :
  parse_ds2theme green_tree (go_path "Green")
  = Ok {[ "Title" := "{{|white:black:U|}}" ]}.
Proof. reflexivity. Qed.

Example scenario_ini_and_dialogrc :
  parse_theme_ini green_tree (bash_ini_path "Green") = Ok {[ "Title" := "${_W_}" ]}
  ∧ parse_dialogrc green_tree (bash_rc_path "Green")
    = Ok {[ "screen_color" := ["BLACK"; "GREEN"; "ON"] ]}.
Proof. split; reflexivity. Qed.

Example scenario_quoted_ini_line :
  theme_ini_line (String "T" (String "=" (String dquote ("${_W_}${_U_}" +:+ String dquote nl))))
  = Ok (Some ("T", "${_W_}${_U_}")).
Proof. reflexivity. Qed.

Example scenario_whole_run :
  main green_tree
  = Run [ "--- Checking Green ---"; "Go Title: {{|white:black:U|}}";
          "Bash Title: ${_W_}"; "Bash dialogrc Title: None";
          "Bash dialogrc Screen: ['BLACK', 'GREEN', 'ON']"; "";
          "--- Checking Empty ---"; "Go Title: None"; "Bash Title: None";
          "Bash dialogrc Title: None"; "Bash dialogrc Screen: None"; "" ]
        (Ok ()).
Proof. reflexivity. Qed.

Example scenario_regex :
  search_group "()(a,b)" = Some "a,b" ∧ search_group "((a)" = Some "(a"
  ∧ search_group "(a" = None ∧ search_group "a)" = None.
Proof. repeat split. Qed.

Example scenario_newlines :
  readlines (String "a" (String "013" (String "010" (String "b" (String "013" "c")))))
  = [String "a" nl; String "b" nl; "c"].
Proof. reflexivity. Qed.

(** ** One line of a file *)

Lemma last_value_app {V} (body : string → result (option (string * V))) k f1 f2 :
  last_value body k (f1 ++ f2)
  = match last_value body k f2 with
    | Some v => Some v
    | None => last_value body k f1
    end.
Proof.
  induction f1 as [|line f1 IH].
  - simpl. by destruct (last_value body k f2).
  - change ((line :: f1) ++ f2) with (line :: (f1 ++ f2)). simpl. rewrite IH.
    by destruct (last_value body k f2), (last_value body k f1).
Qed.

Section LineOfFile.
Context {V : Type} (body : string → result (option (string * V))).
Hypothesis body_total : ∀ line, ∃ e, body line = Ok e.

(** A line that assigns: the dict holds its value under its key, or the
    value of a later line with the same key. *)
Lemma parse_with_line_entry fs p text pre line post k v :
  resolve fs p = Some (File text) →
  readlines text = pre ++ line :: post →
  body line = Ok (Some (k, v)) →
  ∃ m, parse_with body fs p = Ok m
       ∧ m !! k = Some (default v (last_value body k post)).
Proof.
  intros Hp Hlines Hline.
  destruct (parse_with_file body body_total fs p text Hp) as (m & Hm & Hk).
  exists m. split; [done|]. rewrite Hk, Hlines, last_value_app. simpl.
  destruct (last_value body k post); [done|].
  by rewrite Hline, String.eqb_refl.
Qed.

(** A line that does not assign: the dict is that of the file without
    the line. *)
Lemma parse_with_line_skip fs p text pre line post fs' p' text' :
  resolve fs p = Some (File text) →
  readlines text = pre ++ line :: post →
  body line = Ok None →
  resolve fs' p' = Some (File text') →
  readlines text' = pre ++ post →
  parse_with body fs' p' = parse_with body fs p.
Proof.
  intros Hp Hlines Hline Hp' Hlines'.
  destruct (parse_with_file body body_total fs p text Hp) as (m & -> & Hk).
  destruct (parse_with_file body body_total fs' p' text' Hp') as (m' & -> & Hk').
  f_equal. apply map_eq. intros k.
  rewrite Hk, Hk', Hlines, Hlines', !last_value_app. simpl.
  rewrite Hline. by destruct (last_value body k post).
Qed.

End LineOfFile.

(** * The claims *)

(** ** The descriptor parser *)

(** The rule of one line: whether the loop body assigns, and what. *)
Lemma ds2theme_line_rule (line : string) :
  (occurs "=" line ↔ ∃ e, ds2theme_line line = Ok (Some e))
  ∧ (¬ occurs "=" line → ds2theme_line line = Ok None)
  ∧ (∀ l r, line = l +:+ String "=" r → ¬ occurs "=" l →
       ∃ key val val0,
         ds2theme_line line = Ok (Some (key, val))
         ∧ trimmed isspace l key
         ∧ trimmed isspace r val0
         ∧ trimmed is_quote val0 val).
Proof.
  assert (¬ occurs "=" line → ds2theme_line line = Ok None) as Hnone.
  { intros Hno. unfold ds2theme_line. by rewrite contains_eq_false. }
  split_and!; [|done|].
  - split.
    + intros (l & r & -> & Hl)%occurs_first.
      rewrite ds2theme_line_app by done. eauto.
    + intros [e He]. destruct (mem "=" line) eqn:Hm; [by apply mem_occurs|].
      apply mem_false_occurs, Hnone in Hm. congruence.
  - intros l r -> Hl. rewrite ds2theme_line_app by done.
    eexists _, _, (strip r). split_and!; [done|..].
    + apply strip_trimmed.
    + apply strip_trimmed.
    + apply strip_quotes_trimmed.
Qed.

(** C2. A line of the descriptor file contributes an entry to the dict
    that [parse_ds2theme] returns exactly when it contains [=].  When it
    does, the line is cut at its first [=]; the key is the left part
    without the whitespace at its two ends, and the value is the right
    part without the whitespace at its two ends and then without the run
    of quote characters, single or double in any mix, at each end: the
    dict holds that value under that key, unless a later line assigns to
    the key again. When the line has no [=] the dict is the dict of the
    file without the line. *)
Theorem parse_ds2theme_line_rule (fs : node) (p : path) (text : string)
    (pre : list string) (line : string) (post : list string) :
  resolve fs p = Some (File text) →
  readlines text = pre ++ line :: post →
  ∃ m, parse_ds2theme fs p = Ok m
       ∧ (∀ l r, line = l +:+ String "=" r → ¬ occurs "=" l →
            ∃ key val val0,
              trimmed isspace l key
              ∧ trimmed isspace r val0
              ∧ trimmed is_quote val0 val
              ∧ m !! key = Some (default val (last_value ds2theme_line key post)))
       ∧ (¬ occurs "=" line →
            ∀ fs' p' text',
              resolve fs' p' = Some (File text') →
              readlines text' = pre ++ post →
              parse_ds2theme fs' p' = Ok m).
Proof.
  intros Hp Hlines.
  destruct (parse_with_file _ ds2theme_line_total fs p text Hp) as (m & Hm & _).
  exists m. split_and!; [done| |].
  - intros l r -> Hl.
    exists (strip l), (strip_chars quotes (strip r)), (strip r).
    split_and!; [apply strip_trimmed|apply strip_trimmed|apply strip_quotes_trimmed|].
    destruct (parse_with_line_entry _ ds2theme_line_total fs p text pre _ post _ _
                Hp Hlines (ds2theme_line_app l r Hl)) as (m' & Hm' & Hk).
    rewrite Hm in Hm'. by injection Hm' as <-.
  - intros Hno fs' p' text' Hp' Hlines'. rewrite <- Hm.
    apply (parse_with_line_skip _ ds2theme_line_total fs p text pre line post
             fs' p' text'); [done|done| |done|done].
    unfold ds2theme_line. by rewrite contains_eq_false.
Qed.

Lemma parse_ds2theme_line_rule_witness :
  ∃ m, parse_ds2theme twice_tree (go_path "Twice") = Ok m
       ∧ (∀ l r, "Other=x" +:+ nl = l +:+ String "=" r → ¬ occurs "=" l →
            ∃ key val val0,
              trimmed isspace l key
              ∧ trimmed isspace r val0
              ∧ trimmed is_quote val0 val
              ∧ m !! key
                = Some (default val (last_value ds2theme_line key ["Title=second" +:+ nl])))
       ∧ (¬ occurs "=" ("Other=x" +:+ nl) →
            ∀ fs' p' text',
              resolve fs' p' = Some (File text') →
              readlines text' = ["Title=first" +:+ nl] ++ ["Title=second" +:+ nl] →
              parse_ds2theme fs' p' = Ok m).
Proof.
  apply (parse_ds2theme_line_rule twice_tree (go_path "Twice")
           ("Title=first" +:+ nl +:+ "Other=x" +:+ nl +:+ "Title=second" +:+ nl)
           ["Title=first" +:+ nl] ("Other=x" +:+ nl) ["Title=second" +:+ nl]).
  - reflexivity.
  - reflexivity.
Defined.

(** ** The INI parser *)

(** The loop body of the INI parser against the one of the descriptor
    parser, on a line and on a list of lines. *)
Lemma theme_ini_line_rule :
  (∀ rest, theme_ini_line (String "#" rest) = Ok None)
  ∧ (∀ line, (∀ rest, line ≠ String "#" rest) →
       theme_ini_line line = ds2theme_line line)
  ∧ (∀ f colors,
       fill theme_ini_line colors f
       = fill ds2theme_line colors
           (List.filter (λ line, negb (startswith line "#")) f)).
Proof.
  split_and!.
  - intros rest. by rewrite theme_ini_line_ds2theme.
  - intros line Hline. rewrite theme_ini_line_ds2theme.
    destruct line as [|c line]; [done|]. simpl.
    destruct (Ascii.eqb_spec c "#") as [->|_]; [by destruct (Hline line)|done].
  - induction f as [|line f IH]; intros colors; [done|].
    rewrite fill_step, theme_ini_line_ds2theme. cbn [List.filter].
    destruct (startswith line "#"); cbn [negb].
    + apply IH.
    + rewrite fill_step.
      destruct (ds2theme_line line) as [e|]; [apply IH|done].
Qed.

(** C8. In the dict that [parse_theme_ini] returns a line that starts
    with [#] contributes no entry, with or without [=]: the dict is that
    of the file without the line. In all other respects the rule is the
    descriptor parser's: the dict is the one [parse_ds2theme] returns for
    the lines that do not start with [#], and a line with [=] that does
    not start with [#] is cut at its first [=], trimmed and stripped of
    quotes as there, its value held under its key unless a later line
    assigns to the key again. *)
Theorem parse_theme_ini_rule (fs : node) (p : path) (text : string) :
  resolve fs p = Some (File text) →
  ∃ m, parse_theme_ini fs p = Ok m
       ∧ (∀ pre rest post fs' p' text',
            readlines text = pre ++ String "#" rest :: post →
            resolve fs' p' = Some (File text') →
            readlines text' = pre ++ post →
            parse_theme_ini fs' p' = Ok m)
       ∧ (∀ fs' p' text',
            resolve fs' p' = Some (File text') →
            readlines text'
            = List.filter (λ line, negb (startswith line "#")) (readlines text) →
            parse_ds2theme fs' p' = Ok m)
       ∧ (∀ pre line post l r,
            readlines text = pre ++ line :: post →
            (∀ rest, line ≠ String "#" rest) →
            line = l +:+ String "=" r → ¬ occurs "=" l →
            ∃ key val val0,
              trimmed isspace l key
              ∧ trimmed isspace r val0
              ∧ trimmed is_quote val0 val
              ∧ m !! key = Some (default val (last_value theme_ini_line key post))).
Proof.
  intros Hp.
  destruct (parse_with_file _ theme_ini_line_total fs p text Hp) as (m & Hm & _).
  exists m. split_and!; [done| | |].
  - intros pre rest post fs' p' text' Hlines Hp' Hlines'. rewrite <- Hm.
    apply (parse_with_line_skip _ theme_ini_line_total fs p text pre
             (String "#" rest) post fs' p' text'); [done|done| |done|done].
    by rewrite theme_ini_line_ds2theme.
  - intros fs' p' text' Hp' Hlines'. rewrite <- Hm.
    unfold parse_ds2theme, parse_theme_ini.
    rewrite (parse_with_File _ fs' p' text'), (parse_with_File _ fs p text) by done.
    rewrite Hlines'. symmetry. apply theme_ini_line_rule.
  - intros pre line post l r Hlines Hhash -> Hl.
    exists (strip l), (strip_chars quotes (strip r)), (strip r).
    split_and!; [apply strip_trimmed|apply strip_trimmed|apply strip_quotes_trimmed|].
    assert (theme_ini_line (l +:+ String "=" r)
            = Ok (Some (strip l, strip_chars quotes (strip r)))) as Hline.
    { rewrite (proj1 (proj2 theme_ini_line_rule)) by done.
      by apply ds2theme_line_app. }
    destruct (parse_with_line_entry _ theme_ini_line_total fs p text pre _ post _ _
                Hp Hlines Hline) as (m' & Hm' & Hk).
    rewrite Hm in Hm'. by injection Hm' as <-.
Qed.

Lemma parse_theme_ini_rule_witness :
  ∃ m, parse_theme_ini green_tree (bash_ini_path "Green") = Ok m
       ∧ (∀ pre rest post fs' p' text',
            readlines ("# c=1" +:+ nl +:+ "Title=${_W_}" +:+ nl)
            = pre ++ String "#" rest :: post →
            resolve fs' p' = Some (File text') →
            readlines text' = pre ++ post →
            parse_theme_ini fs' p' = Ok m)
       ∧ (∀ fs' p' text',
            resolve fs' p' = Some (File text') →
            readlines text'
            = List.filter (λ line, negb (startswith line "#"))
                (readlines ("# c=1" +:+ nl +:+ "Title=${_W_}" +:+ nl)) →
            parse_ds2theme fs' p' = Ok m)
       ∧ (∀ pre line post l r,
            readlines ("# c=1" +:+ nl +:+ "Title=${_W_}" +:+ nl) = pre ++ line :: post →
            (∀ rest, line ≠ String "#" rest) →
            line = l +:+ String "=" r → ¬ occurs "=" l →
            ∃ key val val0,
              trimmed isspace l key
              ∧ trimmed isspace r val0
              ∧ trimmed is_quote val0 val
              ∧ m !! key = Some (default val (last_value theme_ini_line key post))).
Proof.
  apply (parse_theme_ini_rule green_tree (bash_ini_path "Green")
           ("# c=1" +:+ nl +:+ "Title=${_W_}" +:+ nl)).
  reflexivity.
Defined.

(** ** The dialog parser *)

Lemma contains_paren line : occurs "(" line → contains "(" line = true.
Proof. rewrite contains_single. apply mem_occurs. Qed.

(** C3, as stated, fails for an empty pair of parentheses: the line
    [k=()] has a parenthesised group right of its [=], and splitting the
    empty interior on commas gives one empty part, but the line makes no
    assignment. *)
Lemma dialogrc_line_empty_group :
  dialogrc_line "k=()" = Ok None
  ∧ ¬ (∀ l pre g post,
         ¬ occurs "=" l → ¬ occurs "(" pre → ¬ occurs ")" g →
         dialogrc_line (l +:+ String "=" (pre +:+ String "(" (g +:+ String ")" post)))
         = Ok (Some (strip l, split "," g))).
Proof.
  split; [reflexivity|].
  intros H.
  assert (dialogrc_line "k=()" = Ok (Some (strip "k", split "," ""))) as Hk.
  { apply (H "k" "" "" ""); apply mem_false_occurs; reflexivity. }
  vm_compute in Hk. discriminate Hk.
Qed.

(** What the loop body assigns for a line with a group whose interior is
    not empty. *)
Lemma dialogrc_line_first_group (line l r g : string) :
  line = l +:+ String "=" r → ¬ occurs "=" l → first_group r g →
  ∃ key parts,
    dialogrc_line line = Ok (Some (key, parts))
    ∧ trimmed isspace l key
    ∧ pieces "," g parts.
Proof.
  intros -> Hl Hg. rewrite dialogrc_line_app by done.
  rewrite (search_group_first r g) by done.
  destruct Hg as (pre & (post & -> & _) & _).
  rewrite contains_paren.
  - eexists _, _. split_and!; [done|apply strip_trimmed|apply split_pieces].
  - exists (l +:+ String "=" pre), (g +:+ String ")" post).
    by rewrite app_assoc'.
Qed.

(** C3, amended. A line of [.dialogrc] that has, right of its first [=],
    a parenthesised group with an interior that is not empty yields an
    entry of the dict that [parse_dialogrc] returns: the key is the left
    part without the whitespace at its two ends, and the value is the list
    of the pieces between the commas of the interior of the leftmost such
    group, each piece as it stands; the dict holds that list under that
    key, unless a later line assigns to the key again. *)
Theorem parse_dialogrc_first_group (fs : node) (p : path) (text : string)
    (pre : list string) (line : string) (post : list string) (l r g : string) :
  resolve fs p = Some (File text) →
  readlines text = pre ++ line :: post →
  line = l +:+ String "=" r → ¬ occurs "=" l → first_group r g →
  ∃ rc key parts,
    parse_dialogrc fs p = Ok rc
    ∧ trimmed isspace l key
    ∧ pieces "," g parts
    ∧ rc !! key = Some (default parts (last_value dialogrc_line key post)).
Proof.
  intros Hp Hlines Hline Hl Hg.
  destruct (dialogrc_line_first_group line l r g Hline Hl Hg)
    as (key & parts & Hbody & Hkey & Hparts).
  destruct (parse_with_line_entry _ dialogrc_line_total fs p text pre line post
              key parts Hp Hlines Hbody) as (rc & Hrc & Hk).
  by exists rc, key, parts.
Qed.

Lemma parse_dialogrc_first_group_witness :
  ∃ rc key parts,
    parse_dialogrc rule_tree (bash_rc_path "Groups") = Ok rc
    ∧ trimmed isspace "k" key
    ∧ pieces "," "a,b" parts
    ∧ rc !! key = Some (default parts (last_value dialogrc_line key ["k=()" +:+ nl])).
Proof.
  apply (parse_dialogrc_first_group rule_tree (bash_rc_path "Groups")
           ("k=()(a,b)" +:+ nl +:+ "k=()" +:+ nl)
           [] ("k=()(a,b)" +:+ nl) ["k=()" +:+ nl] "k" ("()(a,b)" +:+ nl) "a,b").
  - reflexivity.
  - reflexivity.
  - reflexivity.
  - apply mem_false_occurs. reflexivity.
  - apply search_group_Some_first. reflexivity.
Defined.

(** C9. A line of [.dialogrc] without a parenthesised group makes no
    assignment and raises nothing: that is every line with no opening
    parenthesis at all, and every line in which, right of the first [=],
    no opening parenthesis has a closing one after it. *)
Theorem dialogrc_line_no_group (line : string) :
  (¬ occurs "(" line
   ∨ ∀ l r, line = l +:+ String "=" r → ¬ occurs "=" l →
       ∀ pre rest, r = pre +:+ String "(" rest → ¬ occurs ")" rest) →
  dialogrc_line line = Ok None.
Proof.
  intros [Hno|Hno].
  - unfold dialogrc_line. rewrite (contains_single "("), (proj2 (mem_false_occurs _ _) Hno).
    by rewrite andb_false_r.
  - destruct (mem "=" line) eqn:Hm.
    + apply mem_occurs, occurs_first in Hm as (l & r & -> & Hl).
      rewrite dialogrc_line_app by done.
      rewrite (search_group_None r) by eauto. by destruct (contains "(" _).
    + unfold dialogrc_line. by rewrite contains_single, Hm.
Qed.

Lemma dialogrc_line_no_group_witness :
  dialogrc_line "use_shadow = ON" = Ok None.
Proof.
  apply dialogrc_line_no_group. left.
  apply mem_false_occurs. reflexivity.
Defined.

(** ** All three parsers *)

(** C4. For a path that does not exist each of the three parsers returns
    the empty dict and raises nothing. *)
Theorem parse_missing_file (fs : node) (p : path) :
  resolve fs p = None →
  parse_ds2theme fs p = Ok ∅
  ∧ parse_theme_ini fs p = Ok ∅
  ∧ parse_dialogrc fs p = Ok ∅.
Proof. intros Hp. split_and!; by apply parse_with_missing. Qed.

Lemma parse_missing_file_witness :
  parse_ds2theme green_tree (go_path "Empty") = Ok ∅
  ∧ parse_theme_ini green_tree (go_path "Empty") = Ok ∅
  ∧ parse_dialogrc green_tree (go_path "Empty") = Ok ∅.
Proof. apply parse_missing_file. reflexivity. Defined.

(** C7. For a file that is there, each of the three parsers returns a
    dict in which every key holds the value of the last line, in file
    order, that assigns to it: a later line with the same key overwrites
    an earlier one. *)
Theorem last_duplicate_wins (fs : node) (p : path) (text : string) :
  resolve fs p = Some (File text) →
  (∃ m, parse_ds2theme fs p = Ok m
        ∧ ∀ k, m !! k = last_value ds2theme_line k (readlines text))
  ∧ (∃ m, parse_theme_ini fs p = Ok m
          ∧ ∀ k, m !! k = last_value theme_ini_line k (readlines text))
  ∧ (∃ m, parse_dialogrc fs p = Ok m
          ∧ ∀ k, m !! k = last_value dialogrc_line k (readlines text)).
Proof.
  intros Hp. split_and!; apply parse_with_file; try done.
  - apply ds2theme_line_total.
  - apply theme_ini_line_total.
  - apply dialogrc_line_total.
Qed.

Lemma last_duplicate_wins_witness :
  (∃ m, parse_ds2theme twice_tree (go_path "Twice") = Ok m
        ∧ m !! "Title" = Some "second")
  ∧ parse_ds2theme twice_tree (go_path "Twice")
    = Ok (<["Title" := "second"]> (<["Other" := "x"]> (<["Title" := "first"]> ∅))).
Proof.
  split; [|reflexivity].
  destruct (last_duplicate_wins twice_tree (go_path "Twice")
              ("Title=first" +:+ nl +:+ "Other=x" +:+ nl +:+ "Title=second" +:+ nl)
              eq_refl) as ((m & Hm & Hk) & _).
  exists m. split; [exact Hm|]. rewrite Hk. reflexivity.
Defined.

(** ** The reporter *)

(** C1, as stated, fails where a file of the theme is there but cannot be
    opened: in [ini_dir_tree] the discovered theme [Worse] has a directory
    under the name [theme.ini]; the header is printed, then the
    [OSError] of [open] ends the run, and no report block is printed. *)
Lemma check_parity_ini_directory :
  themes ini_dir_tree = Ok ["Worse"]
  ∧ check_parity ini_dir_tree "Worse"
    = Run ["--- Checking Worse ---"] (Raise OSError)
  ∧ ¬ ∃ go ini rc,
        stdout (check_parity ini_dir_tree "Worse") = report_block "Worse" go ini rc.
Proof.
  split_and!; [reflexivity|reflexivity|].
  intros (go & ini & rc & H). discriminate H.
Qed.

(** C1, amended. For a theme whose three files are parsed without an
    error, and whose dialog dict holds under [screen_color], if anything,
    at least two elements, the reporter prints, in this order, the header
    naming the theme, the [Title] of the descriptor dict, the [Title] of
    the INI dict, the [title_color] and the [screen_color] of the dialog
    dict and an empty line, with [None] in the place of every field that
    its dict does not hold; it raises nothing. *)
Theorem check_parity_report (fs : node) (name : string)
    (go ini : gmap string string) (rc : gmap string (list string)) :
  parse_ds2theme fs (go_path name) = Ok go →
  parse_theme_ini fs (bash_ini_path name) = Ok ini →
  parse_dialogrc fs (bash_rc_path name) = Ok rc →
  (∀ color, rc !! "screen_color" = Some color → 2 ≤ length color) →
  check_parity fs name = Run (report_block name go ini rc) (Ok ()).
Proof.
  intros Hgo Hini Hrc Hlen.
  destruct (check_parity_parsed fs name go ini rc Hgo Hini Hrc) as [-> _].
  destruct (rc !! "screen_color") as [color|]; [|done].
  specialize (Hlen color eq_refl).
  destruct color as [|fg [|bg color]]; simpl in *; [lia|lia|done].
Qed.

Lemma check_parity_report_witness :
  check_parity green_tree "Empty"
  = Run ["--- Checking Empty ---"; "Go Title: None"; "Bash Title: None";
         "Bash dialogrc Title: None"; "Bash dialogrc Screen: None"; ""] (Ok ()).
Proof.
  change (check_parity green_tree "Empty"
          = Run (report_block "Empty" ∅ ∅ ∅) (Ok ())).
  apply (check_parity_report green_tree "Empty" ∅ ∅ ∅).
  - reflexivity.
  - reflexivity.
  - reflexivity.
  - intros color H. discriminate H.
Defined.

(** C6. When the three parsers return and the dialog dict holds under
    [screen_color] a list of fewer than two elements, the reporter prints
    the header of the theme and nothing else, and ends with an
    [IndexError]. *)
Theorem check_parity_short_screen_color (fs : node) (name : string)
    (go ini : gmap string string) (rc : gmap string (list string))
    (color : list string) :
  parse_ds2theme fs (go_path name) = Ok go →
  parse_theme_ini fs (bash_ini_path name) = Ok ini →
  parse_dialogrc fs (bash_rc_path name) = Ok rc →
  rc !! "screen_color" = Some color →
  length color < 2 →
  check_parity fs name
  = Run ["--- Checking " +:+ name +:+ " ---"] (Raise IndexError).
Proof.
  intros Hgo Hini Hrc Hcolor Hlen.
  destruct (check_parity_parsed fs name go ini rc Hgo Hini Hrc) as [-> _].
  rewrite Hcolor.
  destruct color as [|fg [|bg color]]; simpl in *; [done|done|lia].
Qed.

Lemma check_parity_short_screen_color_witness :
  check_parity short_screen_tree "Bad"
  = Run ["--- Checking Bad ---"] (Raise IndexError).
Proof.
  apply (check_parity_short_screen_color short_screen_tree "Bad" ∅ ∅
           {[ "screen_color" := ["BLACK"] ]} ["BLACK"]).
  - reflexivity.
  - reflexivity.
  - reflexivity.
  - reflexivity.
  - simpl. lia.
Defined.

(** C5 does not hold of the script. In [short_screen_tree] the theme
    [Bad] has the line [screen_color = (BLACK)] in its [.dialogrc]: the
    reporter stops after the header with an [IndexError], raised where the
    screen background is read, and the variant without that computation
    prints the whole block. *)
Theorem check_parity_plain_differs :
  themes short_screen_tree = Ok ["Bad"]
  ∧ check_parity short_screen_tree "Bad"
    = Run ["--- Checking Bad ---"] (Raise IndexError)
  ∧ check_parity_plain short_screen_tree "Bad"
    = Run ["--- Checking Bad ---"; "Go Title: None"; "Bash Title: None";
           "Bash dialogrc Title: None"; "Bash dialogrc Screen: ['BLACK']"; ""]
          (Ok ()).
Proof. split_and!; reflexivity. Qed.

(** ** Theme discovery *)



(** * Further properties of the script *)

(** ** Substrings and the colour helper *)

Lemma startswith_app s pre : startswith s pre = true ↔ ∃ r, s = pre +:+ r.
Proof.
  revert s. induction pre as [|p pre IH]; intros s; simpl.
  - split; [by exists s|done].
  - destruct s as [|c s].
    + split; [done|]. by intros [r Hr].
    + rewrite andb_true_iff, Ascii.eqb_eq, IH. split.
      * intros [-> [r ->]]. by exists r.
      * intros [r Hr]. rewrite app_cons in Hr. injection Hr as -> ->. eauto.
Qed.

Lemma contains_substring sub s : contains sub s = true ↔ substring sub s.
Proof.
  induction s as [|c s IH].
  - simpl. rewrite orb_false_r, startswith_app. split.
    + intros [r Hr]. by exists "", r.
    + intros (l & r & H). symmetry in H.
      apply app_eq_empty in H as [-> H]. by exists r.
  - simpl. rewrite orb_true_iff, startswith_app, IH. split.
    + intros [[r Hr]|(l & r & ->)].
      * by exists "", r.
      * by exists (String c l), r.
    + intros ([|d l] & r & H).
      * left. by exists r.
      * right. rewrite app_cons in H. injection H as _ ->. by exists l, r.
Qed.

Lemma get_bash_color_pick val :
  get_bash_color val = (pick color_tokens val, contains "${_RV_}" val).
Proof. done. Qed.

Lemma pick_first table val pre tok name post :
  table = pre ++ (tok, name) :: post →
  substring tok val →
  (∀ t, t ∈ pre → ¬ substring t.1 val) →
  pick table val = name.
Proof.
  intros -> Htok. induction pre as [|[t n] pre IH]; intros Hpre; simpl.
  - by rewrite (proj2 (contains_substring _ _) Htok).
  - destruct (contains t val) eqn:Ht.
    + apply contains_substring in Ht.
      destruct (Hpre (t, n)); [apply list_elem_of_here|done].
    + apply IH. intros t' Ht'. by apply Hpre, list_elem_of_further.
Qed.

Lemma pick_none table val :
  (∀ t, t ∈ table → ¬ substring t.1 val) → pick table val = "NC".
Proof.
  induction table as [|[t n] table IH]; intros Hno; [done|]. simpl.
  destruct (contains t val) eqn:Ht.
  - apply contains_substring in Ht.
    destruct (Hno (t, n)); [apply list_elem_of_here|done].
  - apply IH. intros t' Ht'. by apply Hno, list_elem_of_further.
Qed.

Lemma pick_some table val :
  (∃ t, t ∈ table ∧ substring t.1 val) → pick table val ∈ table.*2.
Proof.
  induction table as [|[t n] table IH]; intros (t' & Hin & Hsub).
  - by apply elem_of_nil in Hin.
  - simpl. destruct (contains t val) eqn:Ht; [apply list_elem_of_here|].
    apply list_elem_of_further, IH.
    apply elem_of_cons in Hin as [->|Hin]; [|eauto].
    apply contains_substring in Hsub. simpl in Hsub. congruence.
Qed.

(** X1. The colour [get_bash_color] names is decided by the order of its
    tests and not by the place of the tokens in the value: it is the name
    of the first token of the table, in table order, that occurs anywhere
    in the value, and [NC] exactly when none of the eight occurs. The flag
    is true exactly when the reverse-video token occurs, whatever the
    colour. *)
Theorem get_bash_color_first_token (val : string) :
  (∀ pre tok name post,
     color_tokens = pre ++ (tok, name) :: post →
     substring tok val →
     (∀ t, t ∈ pre → ¬ substring t.1 val) →
     (get_bash_color val).1 = name)
  ∧ ((get_bash_color val).1 = "NC"
     ↔ ∀ t, t ∈ color_tokens → ¬ substring t.1 val)
  ∧ ((get_bash_color val).2 = true ↔ substring "${_RV_}" val).
Proof.
  rewrite get_bash_color_pick. cbn [fst snd]. split_and!.
  - intros pre tok name post. apply pick_first.
  - split; [|apply pick_none].
    intros Hnc t Hin Hsub.
    assert (pick color_tokens val ∈ color_tokens.*2) as Hp by (apply pick_some; eauto).
    rewrite Hnc in Hp. vm_compute in Hp.
    repeat (apply elem_of_cons in Hp as [Hp|Hp]; [discriminate Hp|]).
    by apply elem_of_nil in Hp.
  - apply contains_substring.
Qed.

Lemma get_bash_color_first_token_witness :
  (get_bash_color "${_RV_}${_G_}x${_W_}").1 = "white".
Proof.
  apply (proj1 (get_bash_color_first_token "${_RV_}${_G_}x${_W_}")
           [] "${_W_}" "white" (tail color_tokens)).
  - reflexivity.
  - by exists "${_RV_}${_G_}x", "".
  - intros t Ht. by apply elem_of_nil in Ht.
Defined.

(** ** Stripping a wrapped string *)

Lemma last_char_app r c : last_char (r +:+ String c "") = Some c.
Proof.
  induction r as [|d r IH]; [done|]. rewrite app_cons. simpl.
  destruct (r +:+ String c "") eqn:E; [|done].
  by apply app_eq_empty in E as [_ ?].
Qed.

Lemma edge_freeb_edge_free p m : edge_freeb p m = true → edge_free p m.
Proof.
  unfold edge_freeb. intros [Hf Hl]%andb_true_iff. split.
  - intros c r ->. by apply negb_true_iff.
  - intros r c ->. rewrite last_char_app in Hl. by apply negb_true_iff.
Qed.


Lemma occurs_app c a b : occurs c (a +:+ b) ↔ occurs c a ∨ occurs c b.
Proof.
  induction a as [|d a IH].
  - rewrite app_empty_l. split; [by right|].
    intros [[]%not_occurs_empty|?]; done.
  - rewrite app_cons, !occurs_cons, IH. tauto.
Qed.

Lemma all_chars_not_occurs p c s :
  all_chars p s = true → p c = false → ¬ occurs c s.
Proof.
  intros Hall Hc. induction s as [|d s IH].
  - apply not_occurs_empty.
  - simpl in Hall. apply andb_true_iff in Hall as [Hd Hs].
    rewrite occurs_cons. intros [->|H]; [congruence|by apply IH].
Qed.

Section StripApp.
Variable p : ascii → bool.

Lemma lstrip_by_all a s : all_chars p a = true → lstrip_by p (a +:+ s) = lstrip_by p s.
Proof.
  induction a as [|c a IH]; [done|]. intros Hall. simpl in Hall.
  apply andb_true_iff in Hall as [Hc Ha].
  rewrite app_cons. simpl. rewrite Hc. by apply IH.
Qed.

Lemma rstrip_by_all b : all_chars p b = true → rstrip_by p b = "".
Proof.
  induction b as [|c b IH]; [done|]. simpl.
  intros [Hc Hb]%andb_true_iff. by rewrite IH, Hc.
Qed.

Lemma rstrip_by_app m b :
  m ≠ "" → (∀ r c, m = r +:+ String c "" → p c = false) →
  all_chars p b = true → rstrip_by p (m +:+ b) = m.
Proof.
  intros Hne Hlast Hb. induction m as [|c m IH]; [done|].
  rewrite app_cons. simpl. destruct m as [|d m].
  - rewrite app_empty_l, rstrip_by_all by done.
    by rewrite (Hlast "" c).
  - rewrite IH; [done|done|].
    intros r x Hr. apply (Hlast (String c r)). by rewrite app_cons, Hr.
Qed.

Lemma strip_by_app a m b :
  all_chars p a = true → all_chars p b = true → edge_free p m →
  strip_by p (a +:+ m +:+ b) = m.
Proof.
  intros Ha Hb [Hfirst Hlast]. unfold strip_by. rewrite lstrip_by_all by done.
  destruct m as [|c m].
  - rewrite app_empty_l.
    replace (lstrip_by p b) with (lstrip_by p (b +:+ "")) by by rewrite app_empty_r.
    by rewrite lstrip_by_all.
  - rewrite app_cons. simpl. rewrite (Hfirst c m eq_refl).
    by rewrite <- app_cons, rstrip_by_app.
Qed.

End StripApp.

Lemma strip_app a m b :
  all_chars isspace a = true → all_chars isspace b = true →
  edge_free isspace m → strip (a +:+ m +:+ b) = m.
Proof. apply strip_by_app. Qed.

Lemma strip_quotes_app a m b :
  all_chars is_quote a = true → all_chars is_quote b = true →
  edge_free is_quote m → strip_chars quotes (a +:+ m +:+ b) = m.
Proof.
  intros Ha Hb [Hf Hl]. unfold strip_chars. apply strip_by_app.
  - by rewrite (all_chars_ext _ is_quote) by apply mem_quotes.
  - by rewrite (all_chars_ext _ is_quote) by apply mem_quotes.
  - split; intros; rewrite mem_quotes; eauto.
Qed.

(** What the loop bodies assign for a wrapped line. *)
Lemma ds2theme_line_wrapped (ws1 k ws2 ws3 q1 v q2 ws4 : string) :
  all_chars isspace ws1 = true → all_chars isspace ws2 = true →
  all_chars isspace ws3 = true → all_chars isspace ws4 = true →
  all_chars is_quote q1 = true → all_chars is_quote q2 = true →
  edge_free isspace k → ¬ occurs "=" k →
  edge_free is_quote v → edge_free isspace (q1 +:+ v +:+ q2) →
  let line := ws1 +:+ k +:+ ws2 +:+ String "=" (ws3 +:+ (q1 +:+ v +:+ q2) +:+ ws4) in
  ds2theme_line line = Ok (Some (k, v))
  ∧ ((∀ rest, line ≠ String "#" rest) → theme_ini_line line = Ok (Some (k, v))).
Proof.
  intros H1 H2 H3 H4 Hq1 Hq2 Hk Hkeq Hv Hqv line.
  assert (ds2theme_line line = Ok (Some (k, v))) as Hline.
  { subst line.
    replace (ws1 +:+ k +:+ ws2 +:+ String "=" (ws3 +:+ (q1 +:+ v +:+ q2) +:+ ws4))
      with ((ws1 +:+ k +:+ ws2) +:+ String "=" (ws3 +:+ (q1 +:+ v +:+ q2) +:+ ws4))
      by by rewrite !app_assoc'.
    rewrite ds2theme_line_app.
    - by rewrite !strip_app, strip_quotes_app.
    - rewrite !occurs_app. intros [H|[H|H]]; [|done|].
      + by apply (all_chars_not_occurs isspace "=" ws1).
      + by apply (all_chars_not_occurs isspace "=" ws2). }
  split; [done|]. intros Hhash. rewrite theme_ini_line_ds2theme.
  destruct (startswith line "#") eqn:Hs; [|done].
  apply startswith_app in Hs as [r Hr]. by destruct (Hhash r).
Qed.

(** X2. A line of a file that is made of whitespace, a key, whitespace,
    [=], whitespace, quote characters, a value, quote characters and
    whitespace is stored in the dict of the descriptor parser as the key
    and the value as they stand, unless a later line assigns to the key
    again. This needs a key without [=] and without whitespace at its
    ends, a value without a quote character at its ends, and no whitespace
    at the ends of the value taken together with its quotes: whitespace at
    an end of the value is kept only when a quote stands before it. The
    INI parser stores the same unless the line starts with [#]. *)
Theorem parse_wrapped_line (fs : node) (p : path) (text : string)
    (pre post : list string) (ws1 k ws2 ws3 q1 v q2 ws4 : string) :
  resolve fs p = Some (File text) →
  readlines text
  = pre ++ (ws1 +:+ k +:+ ws2 +:+ String "=" (ws3 +:+ (q1 +:+ v +:+ q2) +:+ ws4))
        :: post →
  all_chars isspace ws1 = true → all_chars isspace ws2 = true →
  all_chars isspace ws3 = true → all_chars isspace ws4 = true →
  all_chars is_quote q1 = true → all_chars is_quote q2 = true →
  edge_free isspace k → ¬ occurs "=" k →
  edge_free is_quote v → edge_free isspace (q1 +:+ v +:+ q2) →
  (∃ m, parse_ds2theme fs p = Ok m
        ∧ m !! k = Some (default v (last_value ds2theme_line k post)))
  ∧ ((∀ rest, ws1 +:+ k +:+ ws2 +:+ String "=" (ws3 +:+ (q1 +:+ v +:+ q2) +:+ ws4)
              ≠ String "#" rest) →
     ∃ m, parse_theme_ini fs p = Ok m
          ∧ m !! k = Some (default v (last_value theme_ini_line k post))).
Proof.
  intros Hp Hlines H1 H2 H3 H4 Hq1 Hq2 Hk Hkeq Hv Hqv.
  destruct (ds2theme_line_wrapped ws1 k ws2 ws3 q1 v q2 ws4
              H1 H2 H3 H4 Hq1 Hq2 Hk Hkeq Hv Hqv) as [Hds Hini].
  split.
  - apply (parse_with_line_entry _ ds2theme_line_total fs p text pre _ post k v
             Hp Hlines Hds).
  - intros Hhash.
    apply (parse_with_line_entry _ theme_ini_line_total fs p text pre _ post k v
             Hp Hlines (Hini Hhash)).
Qed.

Lemma parse_wrapped_line_witness :
  ∃ m, parse_ds2theme rule_tree (go_path "Wrapped") = Ok m
       ∧ m !! "Title"
         = Some (default " a b " (last_value ds2theme_line "Title" ["Other=x" +:+ nl])).
Proof.
  refine (proj1 (parse_wrapped_line rule_tree (go_path "Wrapped")
                   (" Title  =  ' a b '  " +:+ nl +:+ "Other=x" +:+ nl)
                   [] ["Other=x" +:+ nl]
                   " " "Title" "  " "  " "'" " a b " "'" ("  " +:+ nl)
                   _ _ _ _ _ _ _ _ _ _ _ _));
    try reflexivity.
  - apply edge_freeb_edge_free. reflexivity.
  - apply mem_false_occurs. reflexivity.
  - apply edge_freeb_edge_free. reflexivity.
  - apply edge_freeb_edge_free. reflexivity.
Defined.

(** ** Where the entries of a dict come from *)

Lemma last_value_Some {V} (body : string → result (option (string * V))) k f v :
  last_value body k f = Some v →
  ∃ line, line ∈ f ∧ body line = Ok (Some (k, v)).
Proof.
  induction f as [|line f IH]; [done|]. simpl.
  destruct (last_value body k f) as [v'|].
  - intros [= ->]. destruct IH as (l & Hin & Hl); [done|].
    exists l. split; [by apply list_elem_of_further|done].
  - destruct (body line) as [[[k' v']|]|] eqn:Hline; [|done|done].
    destruct (String.eqb_spec k' k) as [->|_]; [|done].
    intros [= ->]. exists line. split; [apply list_elem_of_here|done].
Qed.

Section Entries.
Context {V : Type} (body : string → result (option (string * V))).
Hypothesis body_total : ∀ line, ∃ e, body line = Ok e.

Lemma parse_with_Ok_File fs p m :
  parse_with body fs p = Ok m →
  (resolve fs p = None ∧ m = ∅)
  ∨ ∃ text, resolve fs p = Some (File text) ∧ fill body ∅ (readlines text) = Ok m.
Proof.
  intros Hm. destruct (resolve fs p) as [[text|entries| |text]|] eqn:Hp.
  - right. exists text. split; [done|]. by rewrite <- (parse_with_File body fs p).
  - rewrite parse_with_unopened in Hm; [done|eauto].
  - rewrite parse_with_unopened in Hm; [done|eauto].
  - by rewrite (parse_with_Garbled _ _ _ text) in Hm.
  - rewrite parse_with_missing in Hm by done. injection Hm as <-. by left.
Qed.

Lemma parse_with_entry fs p m k v :
  parse_with body fs p = Ok m → m !! k = Some v →
  ∃ text line, resolve fs p = Some (File text)
               ∧ line ∈ readlines text ∧ body line = Ok (Some (k, v)).
Proof.
  intros Hm Hk.
  destruct (parse_with_Ok_File _ _ _ Hm) as [[_ ->]|(text & Hp & _)].
  { by rewrite lookup_empty in Hk. }
  destruct (parse_with_file body body_total fs p text Hp) as (m' & Hm' & Hlast).
  rewrite Hm in Hm'. injection Hm' as <-. rewrite Hlast in Hk.
  apply last_value_Some in Hk as (line & Hin & Hline). eauto.
Qed.

(** A parser raises at [open] or in the decoder, and nowhere else. *)
Lemma parse_with_Raise fs p e :
  parse_with body fs p = Raise e →
  (e = OSError
   ∧ ((∃ entries, resolve fs p = Some (Dir entries)) ∨ resolve fs p = Some Locked))
  ∨ (e = UnicodeDecodeError ∧ ∃ text, resolve fs p = Some (Garbled text)).
Proof.
  intros He. destruct (resolve fs p) as [[text|entries| |text]|] eqn:Hp.
  - destruct (parse_with_file body body_total fs p text Hp) as (m & Hm & _).
    congruence.
  - rewrite parse_with_unopened in He by eauto. injection He as <-. left. eauto.
  - rewrite parse_with_unopened in He by eauto. injection He as <-. left. eauto.
  - rewrite (parse_with_Garbled _ _ _ text) in He by done.
    injection He as <-. right. eauto.
  - by rewrite parse_with_missing in He.
Qed.

End Entries.

Lemma ds2theme_line_entry line k v :
  ds2theme_line line = Ok (Some (k, v)) →
  ∃ l r, line = l +:+ String "=" r ∧ ¬ occurs "=" l
         ∧ k = strip l ∧ v = strip_chars quotes (strip r).
Proof.
  intros H. destruct (mem "=" line) eqn:Hm.
  - apply mem_occurs, occurs_first in Hm as (l & r & -> & Hl).
    rewrite ds2theme_line_app in H by done. injection H as <- <-. eauto 10.
  - unfold ds2theme_line in H. by rewrite contains_single, Hm in H.
Qed.

Lemma theme_ini_line_entry line k v :
  theme_ini_line line = Ok (Some (k, v)) → ds2theme_line line = Ok (Some (k, v)).
Proof. rewrite theme_ini_line_ds2theme. by destruct (startswith line "#"). Qed.

Lemma dialogrc_line_entry line k parts :
  dialogrc_line line = Ok (Some (k, parts)) →
  ∃ l r g, line = l +:+ String "=" r ∧ ¬ occurs "=" l
           ∧ k = strip l ∧ search_group r = Some g ∧ parts = split "," g.
Proof.
  intros H. destruct (mem "=" line) eqn:Hm.
  - apply mem_occurs, occurs_first in Hm as (l & r & -> & Hl).
    rewrite dialogrc_line_app in H by done.
    destruct (contains "(" _); [|done].
    destruct (search_group r) as [g|] eqn:Hg; [|done].
    injection H as <- <-. eauto 10.
  - unfold dialogrc_line in H. by rewrite contains_single, Hm in H.
Qed.

Lemma trimmed_edge_free p s m : trimmed p s m → edge_free p m.
Proof. by intros (a & b & _ & _ & _ & Hf & Hl). Qed.

Lemma trimmed_substring p s m : trimmed p s m → substring m s.
Proof. intros (a & b & -> & _). by exists a, b. Qed.

Lemma substring_occurs c m s : substring m s → occurs c m → occurs c s.
Proof.
  intros (l & r & ->) (a & b & ->).
  exists (l +:+ a), (b +:+ r). by rewrite !app_assoc', !app_cons.
Qed.

Lemma substring_refl s : substring s s.
Proof. exists "", "". by rewrite app_empty_r. Qed.

Lemma substring_trans a b c : substring a b → substring b c → substring a c.
Proof.
  intros (l & r & ->) (l' & r' & ->). exists (l' +:+ l), (r +:+ r').
  by rewrite !app_assoc'.
Qed.

Lemma substring_app_l a b : substring a (a +:+ b).
Proof. by exists "", b. Qed.

Lemma substring_app_r a b : substring b (a +:+ b).
Proof. exists a, "". by rewrite app_empty_r. Qed.

Lemma elem_join_substring sep parts x :
  x ∈ parts → substring x (join sep parts).
Proof.
  induction parts as [|y [|z parts] IH].
  - by intros ?%elem_of_nil.
  - intros ->%list_elem_of_singleton. apply substring_refl.
  - intros [->|Hin]%elem_of_cons.
    + apply substring_app_l.
    + eapply substring_trans; [by apply IH|].
      change (join sep (y :: z :: parts))
        with (y +:+ sep +:+ join sep (z :: parts)).
      eapply substring_trans; apply substring_app_r.
Qed.

Lemma key_clean l : ¬ occurs "=" l → edge_free isspace (strip l) ∧ ¬ occurs "=" (strip l).
Proof.
  intros Hl. split; [apply (trimmed_edge_free _ l), strip_trimmed|].
  intros H. apply Hl. eapply substring_occurs; [|done].
  apply (trimmed_substring isspace), strip_trimmed.
Qed.

(** X3. In a dict returned by the descriptor parser or by the INI parser
    no key starts or ends with whitespace, no key contains [=], and no
    value starts or ends with a quote character. *)
Theorem parsed_entries_clean (fs : node) (p : path)
    (m : gmap string string) (k v : string) :
  parse_ds2theme fs p = Ok m ∨ parse_theme_ini fs p = Ok m →
  m !! k = Some v →
  edge_free isspace k ∧ ¬ occurs "=" k ∧ edge_free is_quote v.
Proof.
  intros Hm Hk.
  assert (∃ line, ds2theme_line line = Ok (Some (k, v))) as [line Hline].
  { destruct Hm as [Hm|Hm].
    - destruct (parse_with_entry _ ds2theme_line_total _ _ _ _ _ Hm Hk)
        as (text & line & _ & _ & Hline). eauto.
    - destruct (parse_with_entry _ theme_ini_line_total _ _ _ _ _ Hm Hk)
        as (text & line & _ & _ & Hline%theme_ini_line_entry). eauto. }
  apply ds2theme_line_entry in Hline as (l & r & _ & Hl & -> & ->).
  destruct (key_clean l Hl) as [? ?]. split_and!; [done|done|].
  apply (trimmed_edge_free _ (strip r)), strip_quotes_trimmed.
Qed.

Lemma parsed_entries_clean_witness :
  edge_free isspace "Title" ∧ ¬ occurs "=" "Title"
  ∧ edge_free is_quote "{{|white:black:U|}}".
Proof.
  apply (parsed_entries_clean green_tree (go_path "Green")
           {[ "Title" := "{{|white:black:U|}}" ]}).
  - left. reflexivity.
  - reflexivity.
Defined.

(** X4. In a dict returned by the dialog parser every key is free of
    whitespace at its ends and of [=], and every stored list has at least
    one element, so that its element 0 can always be read; no element
    contains a comma or a closing parenthesis, and the elements joined by
    commas give a text that is not empty: the list is never the one empty
    string, though all its elements may be empty when there are several. *)
Theorem parsed_dialog_lists (fs : node) (p : path)
    (rc : gmap string (list string)) (k : string) (color : list string) :
  parse_dialogrc fs p = Ok rc →
  rc !! k = Some color →
  edge_free isspace k ∧ ¬ occurs "=" k
  ∧ (∃ fg, color !! 0 = Some fg)
  ∧ join "," color ≠ ""
  ∧ color ≠ [""]
  ∧ Forall (λ x, ¬ occurs "," x ∧ ¬ occurs ")" x) color.
Proof.
  intros Hrc Hk.
  destruct (parse_with_entry _ dialogrc_line_total _ _ _ _ _ Hrc Hk)
    as (text & line & _ & _ & Hline).
  apply dialogrc_line_entry in Hline as (l & r & g & _ & Hl & -> & Hg & ->).
  destruct (key_clean l Hl) as [? ?].
  apply search_group_Some in Hg as (pre & post & _ & Hne & Hclose).
  destruct (split_pieces "," g) as (Hj & Hparts & Hall).
  split_and!; [done|done| | | |].
  - destruct (split "," g) as [|fg parts]; [done|]. by exists fg.
  - by rewrite Hj.
  - intros Hone. rewrite Hone in Hj. by subst g.
  - apply Forall_forall. intros x Hx. split.
    + by apply (proj1 (Forall_forall _ _) Hall).
    + intros Hx'. apply Hclose. eapply substring_occurs; [|done].
      rewrite <- Hj. by apply elem_join_substring.
Qed.

Lemma parsed_dialog_lists_witness :
  edge_free isspace "screen_color" ∧ ¬ occurs "=" "screen_color"
  ∧ (∃ fg, ["BLACK"; "GREEN"; "ON"] !! 0 = Some fg)
  ∧ join "," ["BLACK"; "GREEN"; "ON"] ≠ ""
  ∧ ["BLACK"; "GREEN"; "ON"] ≠ [""]
  ∧ Forall (λ x, ¬ occurs "," x ∧ ¬ occurs ")" x) ["BLACK"; "GREEN"; "ON"].
Proof.
  apply (parsed_dialog_lists green_tree (bash_rc_path "Green")
           {[ "screen_color" := ["BLACK"; "GREEN"; "ON"] ]} "screen_color").
  - reflexivity.
  - reflexivity.
Defined.

(** X5. No line of a file makes a parser raise: a file that opens and
    decodes is parsed to a dict by each of the three parsers, whatever its
    content. A parser raises only at [open], with an [OSError], when its
    path leads to a directory or to a file that cannot be opened, and in
    the decoder, with a [UnicodeDecodeError], when the bytes of the file
    do not decode. *)
Theorem parsers_raise_at_open_or_decode (fs : node) (p : path) :
  (∀ text, resolve fs p = Some (File text) →
           ∃ go ini rc, parse_ds2theme fs p = Ok go
                        ∧ parse_theme_ini fs p = Ok ini
                        ∧ parse_dialogrc fs p = Ok rc)
  ∧ (∀ e, parse_ds2theme fs p = Raise e ∨ parse_theme_ini fs p = Raise e
          ∨ parse_dialogrc fs p = Raise e →
          (e = OSError ∧ cannot_open fs p)
          ∨ (e = UnicodeDecodeError ∧ undecodable fs p))
  ∧ (cannot_open fs p →
       parse_ds2theme fs p = Raise OSError
       ∧ parse_theme_ini fs p = Raise OSError
       ∧ parse_dialogrc fs p = Raise OSError)
  ∧ (undecodable fs p →
       parse_ds2theme fs p = Raise UnicodeDecodeError
       ∧ parse_theme_ini fs p = Raise UnicodeDecodeError
       ∧ parse_dialogrc fs p = Raise UnicodeDecodeError).
Proof.
  split_and!.
  - intros text Hp.
    destruct (parse_with_file _ ds2theme_line_total fs p text Hp) as (go & ? & _).
    destruct (parse_with_file _ theme_ini_line_total fs p text Hp) as (ini & ? & _).
    destruct (parse_with_file _ dialogrc_line_total fs p text Hp) as (rc & ? & _).
    by exists go, ini, rc.
  - intros e [H|[H|H]].
    + by apply (parse_with_Raise _ ds2theme_line_total) in H.
    + by apply (parse_with_Raise _ theme_ini_line_total) in H.
    + by apply (parse_with_Raise _ dialogrc_line_total) in H.
  - intros Hp. split_and!; by apply parse_with_unopened.
  - intros [text Hp]. split_and!.
    + by apply (parse_with_Garbled _ _ _ text ds2theme_line_total).
    + by apply (parse_with_Garbled _ _ _ text theme_ini_line_total).
    + by apply (parse_with_Garbled _ _ _ text dialogrc_line_total).
Qed.

Lemma parsers_raise_at_open_or_decode_witness :
  (parse_ds2theme rule_tree (go_path "Locked") = Raise OSError
   ∧ parse_theme_ini rule_tree (go_path "Locked") = Raise OSError
   ∧ parse_dialogrc rule_tree (go_path "Locked") = Raise OSError)
  ∧ (parse_ds2theme rule_tree (go_path "Garbled") = Raise UnicodeDecodeError
     ∧ parse_theme_ini rule_tree (go_path "Garbled") = Raise UnicodeDecodeError
     ∧ parse_dialogrc rule_tree (go_path "Garbled") = Raise UnicodeDecodeError).
Proof.
  split.
  - apply (proj1 (proj2 (proj2 (parsers_raise_at_open_or_decode rule_tree
                                 (go_path "Locked"))))).
    right. reflexivity.
  - apply (proj2 (proj2 (proj2 (parsers_raise_at_open_or_decode rule_tree
                                 (go_path "Garbled"))))).
    exists ("Title=a" +:+ nl). reflexivity.
Defined.

(** ** The lines of a file *)

Lemma lines_join s : join "" (lines s) = s.
Proof.
  induction s as [|c s IH]; [done|]. simpl.
  destruct (Ascii.eqb_spec c "010") as [->|_].
  - destruct (lines s) as [|l ls]; [by rewrite <- IH|].
    change (join "" (String "010" "" :: l :: ls))
      with (String "010" (join "" (l :: ls))).
    by rewrite IH.
  - destruct (lines s) as [|l [|l' ls]].
    + by rewrite <- IH.
    + simpl in *. by rewrite IH.
    + change (join "" (String c l :: l' :: ls))
        with (String c (join "" (l :: l' :: ls))).
      by rewrite IH.
Qed.

Lemma lines_substring s line : line ∈ lines s → substring line s.
Proof.
  intros Hin. rewrite <- (lines_join s). by apply elem_join_substring.
Qed.

(** A line feed stands at the end of a line or nowhere in it. *)
Lemma lines_feed_last s line a b :
  line ∈ lines s → line = a +:+ String "010" b → b = "".
Proof.
  revert line a. induction s as [|c s IH]; intros line a.
  - by intros ?%elem_of_nil.
  - simpl. destruct (Ascii.eqb_spec c "010") as [->|Hc].
    + intros [->|Hin]%elem_of_cons; [|by apply IH].
      destruct a as [|d a]; [by intros [= <-]|].
      rewrite app_cons. intros [= _ H]. symmetry in H.
      by apply app_eq_empty in H as [_ ?].
    + destruct (lines s) as [|l ls] eqn:Hls.
      * intros ->%list_elem_of_singleton.
        destruct a as [|d a]; [by intros [= ?]|].
        rewrite app_cons. intros [= _ H]. symmetry in H.
        by apply app_eq_empty in H as [_ ?].
      * intros [->|Hin]%elem_of_cons.
        -- destruct a as [|d a]; [by intros [= ?]|].
           rewrite app_cons. intros [= _ H].
           apply (IH l a); [apply list_elem_of_here|done].
        -- apply IH. by apply list_elem_of_further.
Qed.

Lemma translate_newlines_cons c r :
  translate_newlines (String c r)
  = if Ascii.eqb c "013"
    then String "010" (translate_newlines
                         match r with
                         | String d r' => if Ascii.eqb d "010" then r' else r
                         | "" => ""
                         end)
    else String c (translate_newlines r).
Proof.
  simpl. destruct (Ascii.eqb c "013"); [|done].
  destruct r as [|d r']; [done|]. by destruct (Ascii.eqb d "010").
Qed.

Lemma translate_newlines_occurs c s :
  occurs c (translate_newlines s) → c = "010"%char ∨ occurs c s.
Proof.
  remember (String.length s) as n eqn:Hn. revert s Hn.
  induction n as [n IH] using lt_wf_ind. intros [|d r] ->.
  { by intros []%not_occurs_empty. }
  rewrite translate_newlines_cons.
  destruct (Ascii.eqb_spec d "013") as [->|_].
  - intros [<-|H]%occurs_cons; [by left|].
    destruct r as [|e r']; [by apply not_occurs_empty in H|].
    destruct (Ascii.eqb_spec e "010") as [->|_].
    + destruct (IH (String.length r') ltac:(simpl; lia) r' eq_refl H) as [?|?];
        [by left|].
      right. rewrite !occurs_cons. tauto.
    + destruct (IH (String.length (String e r')) ltac:(simpl; lia) _ eq_refl H)
        as [?|?]; [by left|].
      right. rewrite occurs_cons. tauto.
  - intros [->|H]%occurs_cons.
    + right. rewrite occurs_cons. tauto.
    + destruct (IH (String.length r) ltac:(simpl; lia) r eq_refl H) as [?|?];
        [by left|].
      right. rewrite occurs_cons. tauto.
Qed.

Lemma translate_newlines_no_return s : ¬ occurs "013" (translate_newlines s).
Proof.
  remember (String.length s) as n eqn:Hn. revert s Hn.
  induction n as [n IH] using lt_wf_ind. intros [|d r] ->.
  { apply not_occurs_empty. }
  rewrite translate_newlines_cons.
  destruct (Ascii.eqb_spec d "013") as [->|Hd].
  - intros [?|H]%occurs_cons; [done|]. revert H.
    destruct r as [|e r']; [apply not_occurs_empty|].
    destruct (Ascii.eqb e "010").
    + by apply (IH (String.length r') ltac:(simpl; lia)).
    + by apply (IH (String.length (String e r')) ltac:(simpl; lia)).
  - intros [?|H]%occurs_cons; [done|]. revert H.
    by apply (IH (String.length r) ltac:(simpl; lia)).
Qed.

Lemma readlines_occurs c text line :
  line ∈ readlines text → occurs c line → c = "010"%char ∨ occurs c text.
Proof.
  intros Hin%lines_substring Hc.
  apply translate_newlines_occurs. by eapply substring_occurs.
Qed.

Lemma parse_with_no_entries {V} (body : string → result (option (string * V)))
    fs p text :
  (∀ line, ∃ e, body line = Ok e) →
  resolve fs p = Some (File text) →
  (∀ line e, line ∈ readlines text → body line ≠ Ok (Some e)) →
  parse_with body fs p = Ok ∅.
Proof.
  intros Htotal Hp Hnone.
  destruct (parse_with_file body Htotal fs p text Hp) as (m & Hm & _).
  rewrite Hm. f_equal. apply map_empty. intros k.
  destruct (m !! k) as [v|] eqn:Hk; [|done].
  destruct (parse_with_entry body Htotal fs p m k v Hm Hk)
    as (text' & line & Hp' & Hin & Hline).
  rewrite Hp in Hp'. injection Hp' as <-. by destruct (Hnone line (k, v)).
Qed.

(** X6. A file that opens and decodes and holds no [=] at all, the empty
    file among them, is parsed to the empty dict by each of the three
    parsers. *)
Theorem parse_without_equals (fs : node) (p : path) (text : string) :
  resolve fs p = Some (File text) →
  ¬ occurs "=" text →
  parse_ds2theme fs p = Ok ∅
  ∧ parse_theme_ini fs p = Ok ∅
  ∧ parse_dialogrc fs p = Ok ∅.
Proof.
  intros Hp Hno.
  assert (∀ line, line ∈ readlines text → ¬ occurs "=" line) as Hlines.
  { intros line Hin H. by destruct (readlines_occurs "=" text line Hin H). }
  split_and!.
  - apply (parse_with_no_entries _ _ _ text ds2theme_line_total Hp).
    intros line [k v] Hin (l & r & -> & _)%ds2theme_line_entry.
    apply (Hlines _ Hin). by exists l, r.
  - apply (parse_with_no_entries _ _ _ text theme_ini_line_total Hp).
    intros line [k v] Hin (l & r & -> & _)%theme_ini_line_entry%ds2theme_line_entry.
    apply (Hlines _ Hin). by exists l, r.
  - apply (parse_with_no_entries _ _ _ text dialogrc_line_total Hp).
    intros line [k v] Hin (l & r & g & -> & _)%dialogrc_line_entry.
    apply (Hlines _ Hin). by exists l, r.
Qed.

Lemma parse_without_equals_witness :
  parse_ds2theme green_tree (BASH_THEMES_DIR ++ ["readme.txt"]) = Ok ∅
  ∧ parse_theme_ini green_tree (BASH_THEMES_DIR ++ ["readme.txt"]) = Ok ∅
  ∧ parse_dialogrc green_tree (BASH_THEMES_DIR ++ ["readme.txt"]) = Ok ∅.
Proof.
  apply (parse_without_equals green_tree (BASH_THEMES_DIR ++ ["readme.txt"]) "x").
  - reflexivity.
  - apply mem_false_occurs. reflexivity.
Defined.

(** ** No line break in what is stored *)

Lemma is_linebreak_cases c :
  is_linebreak c = true → c = "010"%char ∨ c = "013"%char.
Proof.
  unfold is_linebreak. intros [H|H]%orb_true_iff; apply Ascii.eqb_eq in H; tauto.
Qed.

Lemma readlines_no_return text line :
  line ∈ readlines text → ¬ occurs "013" line.
Proof.
  intros Hin%lines_substring H.
  apply (translate_newlines_no_return text). by eapply substring_occurs.
Qed.

(** A part of a line that is followed by something holds no line feed. *)
Lemma readlines_feed_inside text line u w z :
  line ∈ readlines text → line = u +:+ w +:+ z → z ≠ "" → ¬ occurs "010" w.
Proof.
  intros Hin -> Hz (a & b & ->).
  assert (b +:+ z = "") as [_ ?]%app_eq_empty; [|done].
  apply (lines_feed_last _ _ (u +:+ a) _ Hin).
  by rewrite !app_assoc', !app_cons.
Qed.

Lemma key_single_line text l r c :
  l +:+ String "=" r ∈ readlines text → is_linebreak c = true →
  ¬ occurs c (strip l).
Proof.
  intros Hin [->| ->]%is_linebreak_cases.
  - destruct (trimmed_substring _ _ _ (strip_trimmed l)) as (a & b & Hl).
    apply (readlines_feed_inside text _ a (strip l) (b +:+ String "=" r) Hin);
      [|by intros [_ ?]%app_eq_empty].
    rewrite Hl at 1. by rewrite !app_assoc'.
  - intros H. apply (readlines_no_return _ _ Hin).
    eapply substring_occurs; [|done].
    eapply substring_trans; [|apply substring_app_l].
    apply (trimmed_substring isspace), strip_trimmed.
Qed.

Lemma value_single_line text l r c :
  l +:+ String "=" r ∈ readlines text → is_linebreak c = true →
  ¬ occurs c (strip_chars quotes (strip r)).
Proof.
  intros Hin Hc Hv.
  assert (occurs c (strip r)) as Hm.
  { eapply substring_occurs; [|done].
    apply (trimmed_substring is_quote), strip_quotes_trimmed. }
  clear Hv. destruct (strip_trimmed r) as (x & y & Hr & _ & _ & _ & Hlast).
  apply is_linebreak_cases in Hc as [->| ->].
  - destruct Hm as (a & b & Hm).
    assert (b +:+ y = "") as [-> _]%app_eq_empty.
    { apply (lines_feed_last _ _ (l +:+ String "=" (x +:+ a)) _ Hin).
      rewrite Hr at 1. rewrite Hm. by rewrite !app_assoc', !app_cons, !app_assoc'. }
    by specialize (Hlast a "010"%char Hm).
  - apply (readlines_no_return _ _ Hin).
    eapply substring_occurs; [|done].
    eapply substring_trans; [|apply (substring_app_r l (String "=" r))].
    eapply substring_trans; [|apply (substring_app_r "=" r)].
    rewrite Hr at 2. by exists x, y.
Qed.

Lemma group_single_line text l r g c x :
  l +:+ String "=" r ∈ readlines text → search_group r = Some g →
  x ∈ split "," g → is_linebreak c = true → ¬ occurs c x.
Proof.
  intros Hin (pre & post & -> & _)%search_group_Some Hx Hc Hocc.
  assert (occurs c g) as Hg.
  { eapply substring_occurs; [|done].
    destruct (split_pieces "," g) as (<- & _). by apply elem_join_substring. }
  apply is_linebreak_cases in Hc as [->| ->].
  - apply (readlines_feed_inside text _ (l +:+ String "=" (pre +:+ "(")) g
             (String ")" post) Hin); [|done|done].
    by rewrite !app_assoc', !app_cons, !app_assoc'.
  - apply (readlines_no_return _ _ Hin).
    apply (substring_occurs _ g); [|done].
    exists (l +:+ String "=" (pre +:+ "(")), (String ")" post).
    by rewrite !app_assoc', !app_cons, !app_assoc'.
Qed.

(** X7. Nothing a parser stores runs over a line: no key, no value and no
    element of a stored list contains a line feed or a carriage return. *)
Theorem parsed_text_single_line (fs : node) (p : path) (c : ascii) :
  is_linebreak c = true →
  (∀ m k v, parse_ds2theme fs p = Ok m ∨ parse_theme_ini fs p = Ok m →
            m !! k = Some v → ¬ occurs c k ∧ ¬ occurs c v)
  ∧ (∀ rc k color, parse_dialogrc fs p = Ok rc → rc !! k = Some color →
                   ¬ occurs c k ∧ Forall (λ x, ¬ occurs c x) color).
Proof.
  intros Hc. split.
  - intros m k v Hm Hk.
    assert (∃ text line, line ∈ readlines text
                         ∧ ds2theme_line line = Ok (Some (k, v)))
      as (text & line & Hin & Hline).
    { destruct Hm as [Hm|Hm].
      - destruct (parse_with_entry _ ds2theme_line_total _ _ _ _ _ Hm Hk)
          as (text & line & _ & Hin & Hline). eauto.
      - destruct (parse_with_entry _ theme_ini_line_total _ _ _ _ _ Hm Hk)
          as (text & line & _ & Hin & Hline%theme_ini_line_entry). eauto. }
    apply ds2theme_line_entry in Hline as (l & r & -> & _ & -> & ->).
    split; [by eapply key_single_line|by eapply value_single_line].
  - intros rc k color Hrc Hk.
    destruct (parse_with_entry _ dialogrc_line_total _ _ _ _ _ Hrc Hk)
      as (text & line & _ & Hin & Hline).
    apply dialogrc_line_entry in Hline as (l & r & g & -> & _ & -> & Hg & ->).
    split; [by eapply key_single_line|].
    apply Forall_forall. intros x Hx. by eapply group_single_line.
Qed.

Lemma parsed_text_single_line_witness :
  ¬ occurs "010" "Title" ∧ ¬ occurs "010" "{{|white:black:U|}}".
Proof.
  apply (proj1 (parsed_text_single_line green_tree (go_path "Green") "010" eq_refl)
           {[ "Title" := "{{|white:black:U|}}" ]}).
  - left. reflexivity.
  - reflexivity.
Defined.

(** ** How a theme check ends *)

Lemma check_parity_raise_go fs name e :
  parse_ds2theme fs (go_path name) = Raise e →
  check_parity fs name = Run ["--- Checking " +:+ name +:+ " ---"] (Raise e).
Proof. intros H. unfold check_parity. by rewrite H. Qed.

Lemma check_parity_raise_ini fs name go e :
  parse_ds2theme fs (go_path name) = Ok go →
  parse_theme_ini fs (bash_ini_path name) = Raise e →
  check_parity fs name = Run ["--- Checking " +:+ name +:+ " ---"] (Raise e).
Proof. intros H1 H2. unfold check_parity. by rewrite H1, H2. Qed.

Lemma check_parity_raise_rc fs name go ini e :
  parse_ds2theme fs (go_path name) = Ok go →
  parse_theme_ini fs (bash_ini_path name) = Ok ini →
  parse_dialogrc fs (bash_rc_path name) = Raise e →
  check_parity fs name = Run ["--- Checking " +:+ name +:+ " ---"] (Raise e).
Proof. intros H1 H2 H3. unfold check_parity. by rewrite H1, H2, H3. Qed.

(** The cases of one theme check, by what the parsers return. *)
Lemma check_parity_cases fs name :
  (∃ e p,
     (p = go_path name ∨ p = bash_ini_path name ∨ p = bash_rc_path name)
     ∧ ((e = OSError ∧ cannot_open fs p) ∨ (e = UnicodeDecodeError ∧ undecodable fs p))
     ∧ check_parity fs name
       = Run ["--- Checking " +:+ name +:+ " ---"] (Raise e))
  ∨ (∃ go ini rc,
       parse_ds2theme fs (go_path name) = Ok go
       ∧ parse_theme_ini fs (bash_ini_path name) = Ok ini
       ∧ parse_dialogrc fs (bash_rc_path name) = Ok rc
       ∧ ((∃ color, rc !! "screen_color" = Some color ∧ length color < 2
                    ∧ check_parity fs name
                      = Run ["--- Checking " +:+ name +:+ " ---"] (Raise IndexError))
          ∨ ((∀ color, rc !! "screen_color" = Some color → 2 ≤ length color)
             ∧ check_parity fs name = Run (report_block name go ini rc) (Ok ())))).
Proof.
  destruct (parse_ds2theme fs (go_path name)) as [go|e] eqn:Hgo.
  2:{ left. exists e, (go_path name). split_and!; [tauto| |].
      - by apply (parse_with_Raise _ ds2theme_line_total).
      - by apply check_parity_raise_go. }
  destruct (parse_theme_ini fs (bash_ini_path name)) as [ini|e] eqn:Hini.
  2:{ left. exists e, (bash_ini_path name). split_and!; [tauto| |].
      - by apply (parse_with_Raise _ theme_ini_line_total).
      - by eapply check_parity_raise_ini. }
  destruct (parse_dialogrc fs (bash_rc_path name)) as [rc|e] eqn:Hrc.
  2:{ left. exists e, (bash_rc_path name). split_and!; [tauto| |].
      - by apply (parse_with_Raise _ dialogrc_line_total).
      - by eapply check_parity_raise_rc. }
  right. exists go, ini, rc. split_and!; [done..|].
  destruct (check_parity_parsed fs name go ini rc Hgo Hini Hrc) as [-> _].
  destruct (rc !! "screen_color") as [[|fg [|bg color]]|].
  - left. exists []. split_and!; [done|simpl; lia|done].
  - left. exists [fg]. split_and!; [done|simpl; lia|done].
  - right. split; [|done]. intros ? [= <-]. simpl. lia.
  - right. split; [|done]. done.
Qed.

(** X8. A theme check ends in one of four ways and in no other: the header
    and the [OSError] of [open]; the header and the [UnicodeDecodeError]
    of the decoder; the header and an [IndexError]; or the whole report
    block and a normal return. It never prints a part of the block beyond
    the header, and it never ends with a [KeyError] or with the
    [ValueError] of unpacking. The [OSError] only comes up when one of the
    three paths of the theme leads to a directory or to a file that cannot
    be opened, the [UnicodeDecodeError] only when one of the three files
    does not decode, and the [IndexError] only when all three parsers
    return and the dialog dict holds fewer than two elements under
    [screen_color]. *)
Theorem check_parity_outcomes (fs : node) (name : string) :
  (check_parity fs name = Run ["--- Checking " +:+ name +:+ " ---"] (Raise OSError)
   ∨ check_parity fs name
     = Run ["--- Checking " +:+ name +:+ " ---"] (Raise UnicodeDecodeError)
   ∨ check_parity fs name = Run ["--- Checking " +:+ name +:+ " ---"] (Raise IndexError)
   ∨ ∃ go ini rc, check_parity fs name = Run (report_block name go ini rc) (Ok ()))
  ∧ (outcome (check_parity fs name) = Raise OSError →
     cannot_open fs (go_path name) ∨ cannot_open fs (bash_ini_path name)
     ∨ cannot_open fs (bash_rc_path name))
  ∧ (outcome (check_parity fs name) = Raise UnicodeDecodeError →
     undecodable fs (go_path name) ∨ undecodable fs (bash_ini_path name)
     ∨ undecodable fs (bash_rc_path name))
  ∧ (outcome (check_parity fs name) = Raise IndexError →
     ∃ go ini rc color,
       parse_ds2theme fs (go_path name) = Ok go
       ∧ parse_theme_ini fs (bash_ini_path name) = Ok ini
       ∧ parse_dialogrc fs (bash_rc_path name) = Ok rc
       ∧ rc !! "screen_color" = Some color ∧ length color < 2).
Proof.
  destruct (check_parity_cases fs name)
    as [(e & p & Hp & [[-> Horigin]|[-> Horigin]] & Hcp)
       |(go & ini & rc & Hgo & Hini & Hrc
         & [(color & Hc & Hlen & Hcp)|(Hlen & Hcp)])];
    rewrite Hcp; cbn [outcome]; split_and!; try done; try tauto; eauto 10.
  - intros _. destruct Hp as [->|[->| ->]]; tauto.
  - intros _. destruct Hp as [->|[->| ->]]; tauto.
Qed.

Lemma check_parity_outcomes_witness :
  undecodable rule_tree (go_path "Dark") ∨ undecodable rule_tree (bash_ini_path "Dark")
  ∨ undecodable rule_tree (bash_rc_path "Dark").
Proof.
  apply (proj1 (proj2 (proj2 (check_parity_outcomes rule_tree "Dark")))).
  reflexivity.
Defined.

(** ** The whole run *)

Lemma for_each_cons_Ok {A} (x : A) xs (body : A → M ()) :
  outcome (body x) = Ok () →
  for_each (x :: xs) body
  = Run (stdout (body x) ++ stdout (for_each xs body)) (outcome (for_each xs body)).
Proof. intros H. simpl. unfold mbind, M_bind. by rewrite H. Qed.

Lemma for_each_cons_Raise {A} (x : A) xs (body : A → M ()) e :
  outcome (body x) = Raise e →
  for_each (x :: xs) body = Run (stdout (body x)) (Raise e).
Proof. intros H. simpl. unfold mbind, M_bind. by rewrite H. Qed.

Lemma for_each_all_Ok fs ts :
  (∀ t, t ∈ ts → outcome (check_parity fs t) = Ok ()) →
  for_each ts (check_parity fs) = Run (blocks fs ts) (Ok ()).
Proof.
  induction ts as [|t ts IH]; intros Hok; [done|].
  rewrite for_each_cons_Ok by apply Hok, list_elem_of_here.
  rewrite IH by (intros ??; by apply Hok, list_elem_of_further). done.
Qed.

Lemma for_each_first_Raise fs pre t post e :
  (∀ x, x ∈ pre → outcome (check_parity fs x) = Ok ()) →
  outcome (check_parity fs t) = Raise e →
  for_each (pre ++ t :: post) (check_parity fs)
  = Run (blocks fs pre ++ stdout (check_parity fs t)) (Raise e).
Proof.
  intros Hok Ht. induction pre as [|x pre IH].
  - change ([] ++ t :: post) with (t :: post).
    by rewrite (for_each_cons_Raise _ _ _ e).
  - change ((x :: pre) ++ t :: post) with (x :: (pre ++ t :: post)).
    rewrite for_each_cons_Ok by apply Hok, list_elem_of_here.
    rewrite IH by (intros ??; by apply Hok, list_elem_of_further).
    change (blocks fs (x :: pre)) with (stdout (check_parity fs x) ++ blocks fs pre).
    cbn [stdout outcome]. by rewrite app_assoc.
Qed.

Lemma main_themes fs ts :
  themes fs = Ok ts → main fs = for_each ts (check_parity fs).
Proof. intros H. unfold main. by rewrite H, bind_lift_Ok. Qed.

Lemma check_parity_Ok_block fs name :
  outcome (check_parity fs name) = Ok () → length (stdout (check_parity fs name)) = 6.
Proof.
  destruct (check_parity_cases fs name)
    as [(e & p & _ & _ & ->)
       |(go & ini & rc & _ & _ & _ & [(color & _ & _ & ->)|(_ & ->)])]; done.
Qed.

(** X9. The run stops at the first theme whose check raises: the blocks
    of the themes listed before it are printed in listing order, then what
    the failing check printed, and the themes listed after it are not
    checked at all; the run ends with that exception. *)
Theorem main_stops_at_first_error (fs : node) (pre : list string) (t : string)
    (post : list string) (e : exn) :
  themes fs = Ok (pre ++ t :: post) →
  (∀ x, x ∈ pre → outcome (check_parity fs x) = Ok ()) →
  outcome (check_parity fs t) = Raise e →
  main fs = Run (blocks fs pre ++ ["--- Checking " +:+ t +:+ " ---"]) (Raise e).
Proof.
  intros Hts Hpre Ht. rewrite (main_themes _ _ Hts).
  rewrite (for_each_first_Raise _ _ _ _ e) by done. do 2 f_equal.
  destruct (check_parity_cases fs t)
    as [(e' & p & _ & _ & Hcp)
       |(go & ini & rc & _ & _ & _ & [(color & _ & _ & Hcp)|(_ & Hcp)])];
    rewrite Hcp in Ht |- *; done.
Qed.

Lemma main_stops_at_first_error_witness :
  main three_themes_tree
  = Run (blocks three_themes_tree ["A"] ++ ["--- Checking B ---"]) (Raise IndexError).
Proof.
  apply (main_stops_at_first_error three_themes_tree ["A"] "B" ["C"] IndexError).
  - reflexivity.
  - intros x ->%list_elem_of_singleton. reflexivity.
  - reflexivity.
Defined.

(** X10. When every discovered theme is checked without an exception the
    run prints the blocks of all themes in listing order, six lines for
    each theme, and returns. *)
Theorem main_reports_all (fs : node) (ts : list string) :
  themes fs = Ok ts →
  (∀ t, t ∈ ts → outcome (check_parity fs t) = Ok ()) →
  main fs = Run (blocks fs ts) (Ok ())
  ∧ length (blocks fs ts) = 6 * length ts.
Proof.
  intros Hts Hok. split.
  - rewrite (main_themes _ _ Hts). by apply for_each_all_Ok.
  - clear Hts. induction ts as [|t ts IH]; [done|].
    change (blocks fs (t :: ts)) with (stdout (check_parity fs t) ++ blocks fs ts).
    rewrite length_app, IH by (intros ??; by apply Hok, list_elem_of_further).
    rewrite check_parity_Ok_block by apply Hok, list_elem_of_here.
    simpl length. lia.
Qed.

Lemma main_reports_all_witness :
  main green_tree = Run (blocks green_tree ["Green"; "Empty"]) (Ok ())
  ∧ length (blocks green_tree ["Green"; "Empty"]) = 6 * 2.
Proof.
  apply (main_reports_all green_tree ["Green"; "Empty"]).
  - reflexivity.
  - intros t [->|[->|[]%elem_of_nil]%elem_of_cons]%elem_of_cons; reflexivity.
Defined.

(** ** When the dialog parser makes an entry *)

(** When the loop body of the dialog parser assigns. *)
Lemma dialogrc_line_entry_iff (l r : string) :
  ¬ occurs "=" l →
  ((∃ e, dialogrc_line (l +:+ String "=" r) = Ok (Some e))
   ↔ ∃ pre g, group_at r pre g)
  ∧ (∀ k parts,
       dialogrc_line (l +:+ String "=" r) = Ok (Some (k, parts)) →
       ∃ g, first_group r g ∧ k = strip l ∧ parts = split "," g).
Proof.
  intros Hl. rewrite dialogrc_line_app by done. split.
  - split.
    + intros [e He]. destruct (contains "(" _); [|done].
      destruct (search_group r) as [g|] eqn:Hg; [|done].
      by apply search_group_Some in Hg as [pre Hat]; eauto.
    + intros (pre & g & Hat).
      destruct (group_at_search _ _ _ Hat) as [g' ->].
      destruct Hat as (post & -> & _). rewrite contains_paren; [eauto|].
      exists (l +:+ String "=" pre), (g +:+ String ")" post).
      by rewrite app_assoc'.
  - intros k parts H. destruct (contains "(" _); [|done].
    destruct (search_group r) as [g|] eqn:Hg; [|done].
    injection H as <- <-. exists g. split; [by apply search_group_Some_first|done].
Qed.

(** X11. A line of a [.dialogrc] file, with [l] left of its first [=]
    and [r] right of it, contributes an entry to the dict that
    [parse_dialogrc] returns exactly when [r] holds a parenthesised group
    whose interior is not empty. If it does, the dict holds under [l]
    without the whitespace at its ends the comma split of the leftmost such
    group, unless a later line assigns to that key again. If it does not,
    as for a line whose groups are all empty, the dict is that of the file
    without the line. *)
Theorem parse_dialogrc_entry_iff (fs : node) (p : path) (text : string)
    (pre post : list string) (l r : string) :
  resolve fs p = Some (File text) →
  readlines text = pre ++ (l +:+ String "=" r) :: post →
  ¬ occurs "=" l →
  ∃ rc, parse_dialogrc fs p = Ok rc
        ∧ ((∃ pre' g, group_at r pre' g) →
           ∃ g, first_group r g
                ∧ rc !! strip l
                  = Some (default (split "," g)
                            (last_value dialogrc_line (strip l) post)))
        ∧ ((¬ ∃ pre' g, group_at r pre' g) →
           ∀ fs' p' text',
             resolve fs' p' = Some (File text') →
             readlines text' = pre ++ post →
             parse_dialogrc fs' p' = Ok rc).
Proof.
  intros Hp Hlines Hl.
  destruct (parse_with_file _ dialogrc_line_total fs p text Hp) as (rc & Hrc & _).
  destruct (dialogrc_line_entry_iff l r Hl) as [Hiff Hfirst].
  exists rc. split_and!; [done| |].
  - intros [[k parts] Hline]%Hiff.
    destruct (Hfirst k parts Hline) as (g & Hg & -> & ->).
    exists g. split; [done|].
    destruct (parse_with_line_entry _ dialogrc_line_total fs p text pre _ post _ _
                Hp Hlines Hline) as (rc' & Hrc' & Hk).
    rewrite Hrc in Hrc'. by injection Hrc' as <-.
  - intros Hno fs' p' text' Hp' Hlines'. rewrite <- Hrc.
    apply (parse_with_line_skip _ dialogrc_line_total fs p text pre
             (l +:+ String "=" r) post fs' p' text'); [done|done| |done|done].
    destruct (dialogrc_line_total (l +:+ String "=" r)) as [[e|] He]; [|done].
    destruct Hno. apply Hiff. eauto.
Qed.

Lemma parse_dialogrc_entry_iff_witness :
  ∃ rc, parse_dialogrc rule_tree (bash_rc_path "Groups") = Ok rc
        ∧ ((∃ pre' g, group_at ("()" +:+ nl) pre' g) →
           ∃ g, first_group ("()" +:+ nl) g
                ∧ rc !! strip "k"
                  = Some (default (split "," g)
                            (last_value dialogrc_line (strip "k") [])))
        ∧ ((¬ ∃ pre' g, group_at ("()" +:+ nl) pre' g) →
           ∀ fs' p' text',
             resolve fs' p' = Some (File text') →
             readlines text' = ["k=()(a,b)" +:+ nl] ++ [] →
             parse_dialogrc fs' p' = Ok rc).
Proof.
  apply (parse_dialogrc_entry_iff rule_tree (bash_rc_path "Groups")
           ("k=()(a,b)" +:+ nl +:+ "k=()" +:+ nl)
           ["k=()(a,b)" +:+ nl] [] "k" ("()" +:+ nl)).
  - reflexivity.
  - reflexivity.
  - apply mem_false_occurs. reflexivity.
Defined.

(** ** The unfinished comparison *)

Lemma check_parity_both_raise fs name :
  (∃ e, check_parity fs name = Run ["--- Checking " +:+ name +:+ " ---"] (Raise e)
        ∧ check_parity_plain fs name = check_parity fs name)
  ∨ ∃ go ini rc,
      parse_ds2theme fs (go_path name) = Ok go
      ∧ parse_theme_ini fs (bash_ini_path name) = Ok ini
      ∧ parse_dialogrc fs (bash_rc_path name) = Ok rc.
Proof.
  destruct (parse_ds2theme fs (go_path name)) as [go|e] eqn:Hgo;
    [|left; exists e; unfold check_parity, check_parity_plain; by rewrite Hgo].
  destruct (parse_theme_ini fs (bash_ini_path name)) as [ini|e] eqn:Hini;
    [|left; exists e; unfold check_parity, check_parity_plain; by rewrite Hgo, Hini].
  destruct (parse_dialogrc fs (bash_rc_path name)) as [rc|e] eqn:Hrc;
    [|left; exists e; unfold check_parity, check_parity_plain;
      by rewrite Hgo, Hini, Hrc].
  right. by exists go, ini, rc.
Qed.

(** X12. The reporter differs from its variant without the unfinished
    colour comparison in one case only: all three parsers return and the
    dialog dict holds under [screen_color] a list of fewer than two
    elements. In every other case the two print the same and end the
    same. *)
Theorem check_parity_plain_differs_iff (fs : node) (name : string) :
  check_parity fs name ≠ check_parity_plain fs name
  ↔ ∃ go ini rc color,
      parse_ds2theme fs (go_path name) = Ok go
      ∧ parse_theme_ini fs (bash_ini_path name) = Ok ini
      ∧ parse_dialogrc fs (bash_rc_path name) = Ok rc
      ∧ rc !! "screen_color" = Some color
      ∧ length color < 2.
Proof.
  split.
  - intros Hne.
    destruct (check_parity_both_raise fs name)
      as [(e & _ & Heq)|(go & ini & rc & Hgo & Hini & Hrc)]; [congruence|].
    exists go, ini, rc.
    destruct (check_parity_parsed fs name go ini rc Hgo Hini Hrc) as [Hcp Hpl].
    rewrite Hcp, Hpl in Hne.
    destruct (rc !! "screen_color") as [[|fg [|bg color]]|]; try done.
    + exists []. split_and!; [done..|simpl; lia].
    + exists [fg]. split_and!; [done..|simpl; lia].
  - intros (go & ini & rc & color & Hgo & Hini & Hrc & Hcolor & Hlen).
    destruct (check_parity_parsed fs name go ini rc Hgo Hini Hrc) as [-> ->].
    rewrite Hcolor. destruct color as [|fg [|bg color]]; simpl in *; [done|done|lia].
Qed.

Lemma check_parity_plain_differs_iff_witness :
  check_parity short_screen_tree "Bad" ≠ check_parity_plain short_screen_tree "Bad".
Proof.
  apply (proj2 (check_parity_plain_differs_iff short_screen_tree "Bad")).
  exists ∅, ∅, {[ "screen_color" := ["BLACK"] ]}, ["BLACK"].
  split_and!; [reflexivity..|simpl; lia].
Defined.

(** ** A theme without files *)

(** X13. For a theme none of whose three files exists the check prints
    the header, [None] for each of the four fields and the empty line, and
    returns: a missing file is reported like a missing field. *)
Theorem check_parity_no_files (fs : node) (name : string) :
  resolve fs (go_path name) = None →
  resolve fs (bash_ini_path name) = None →
  resolve fs (bash_rc_path name) = None →
  check_parity fs name
  = Run [ "--- Checking " +:+ name +:+ " ---"; "Go Title: None";
          "Bash Title: None"; "Bash dialogrc Title: None";
          "Bash dialogrc Screen: None"; "" ] (Ok ()).
Proof.
  intros Hgo Hini Hrc.
  destruct (check_parity_parsed fs name ∅ ∅ ∅) as [-> _];
    [by apply parse_with_missing..|].
  by rewrite lookup_empty.
Qed.

Lemma check_parity_no_files_witness :
  check_parity green_tree "Empty"
  = Run [ "--- Checking Empty ---"; "Go Title: None"; "Bash Title: None";
          "Bash dialogrc Title: None"; "Bash dialogrc Screen: None"; "" ] (Ok ()).
Proof. apply (check_parity_no_files green_tree "Empty"); reflexivity. Defined.

(** ** A file in two parts *)

Lemma translate_newlines_app_feed t1 :
  ∃ u, translate_newlines (t1 +:+ String "010" "") = u +:+ String "010" ""
       ∧ ∀ t2, translate_newlines (t1 +:+ String "010" t2)
               = u +:+ String "010" (translate_newlines t2).
Proof.
  remember (String.length t1) as n eqn:Hn. revert t1 Hn.
  induction n as [n IH] using lt_wf_ind. intros [|c r] ->.
  { by exists "". }
  destruct (Ascii.eqb_spec c "013") as [->|Hc].
  - destruct r as [|d r'].
    + exists "". split; [done|]. intros t2. by rewrite app_cons, app_empty_l.
    + destruct (Ascii.eqb_spec d "010") as [->|Hd].
      * destruct (IH (String.length r') ltac:(simpl; lia) r' eq_refl)
          as (u & Hu & Hu').
        exists (String "010" u). split.
        -- rewrite !app_cons, translate_newlines_cons. simpl Ascii.eqb.
           cbn iota. by rewrite Hu.
        -- intros t2. rewrite !app_cons, translate_newlines_cons. simpl Ascii.eqb.
           cbn iota. by rewrite Hu'.
      * destruct (IH (String.length (String d r')) ltac:(simpl; lia) _ eq_refl)
          as (u & Hu & Hu').
        exists (String "010" u). split.
        -- rewrite app_cons, translate_newlines_cons. simpl Ascii.eqb.
           cbn iota. rewrite app_cons.
           destruct (Ascii.eqb_spec d "010") as [?|_]; [done|].
           rewrite <- app_cons. by rewrite Hu.
        -- intros t2. rewrite app_cons, translate_newlines_cons. simpl Ascii.eqb.
           cbn iota. rewrite app_cons.
           destruct (Ascii.eqb_spec d "010") as [?|_]; [done|].
           rewrite <- app_cons. by rewrite Hu'.
  - destruct (IH (String.length r) ltac:(simpl; lia) r eq_refl) as (u & Hu & Hu').
    exists (String c u). split.
    + rewrite app_cons, translate_newlines_cons.
      destruct (Ascii.eqb_spec c "013") as [?|_]; [done|]. by rewrite Hu.
    + intros t2. rewrite app_cons, translate_newlines_cons.
      destruct (Ascii.eqb_spec c "013") as [?|_]; [done|]. by rewrite Hu'.
Qed.

Lemma lines_nil s : lines s = [] → s = "".
Proof. intros H. by rewrite <- (lines_join s), H. Qed.

Lemma lines_app_feed a b :
  lines (a +:+ String "010" b) = lines (a +:+ String "010" "") ++ lines b.
Proof.
  induction a as [|c a IH]; [done|]. rewrite !app_cons. simpl.
  destruct (Ascii.eqb c "010"); [by rewrite IH|]. rewrite IH.
  destruct (lines (a +:+ String "010" "")) as [|l ls] eqn:Hl; [|done].
  by apply lines_nil, app_eq_empty in Hl as [_ ?].
Qed.

Lemma readlines_app_feed t1 t2 :
  readlines (t1 +:+ String "010" t2)
  = readlines (t1 +:+ String "010" "") ++ readlines t2.
Proof.
  unfold readlines. destruct (translate_newlines_app_feed t1) as (u & -> & ->).
  apply lines_app_feed.
Qed.

Lemma fill_app {V} (body : string → result (option (string * V))) colors f1 f2 :
  fill body colors (f1 ++ f2) = colors1 ← fill body colors f1; fill body colors1 f2.
Proof.
  revert colors. induction f1 as [|line f1 IH]; intros colors; [done|].
  change ((line :: f1) ++ f2) with (line :: (f1 ++ f2)).
  rewrite !fill_step. destruct (body line) as [e|]; [apply IH|done].
Qed.

Section Appended.
Context {V : Type} (body : string → result (option (string * V))).
Hypothesis body_total : ∀ line, ∃ e, body line = Ok e.

Lemma parse_with_appended fs p fs1 p1 fs2 p2 t1 t2 :
  resolve fs p = Some (File (t1 +:+ String "010" t2)) →
  resolve fs1 p1 = Some (File (t1 +:+ String "010" "")) →
  resolve fs2 p2 = Some (File t2) →
  ∃ m m1 m2, parse_with body fs p = Ok m
             ∧ parse_with body fs1 p1 = Ok m1
             ∧ parse_with body fs2 p2 = Ok m2
             ∧ m = m2 ∪ m1.
Proof.
  intros Hp Hp1 Hp2.
  destruct (parse_with_file body body_total fs1 p1 _ Hp1) as (m1 & Hm1 & Hk1).
  destruct (parse_with_file body body_total fs2 p2 _ Hp2) as (m2 & Hm2 & Hk2).
  destruct (fill_last_value body body_total (readlines t2) m1) as (m & Hm & Hk).
  exists m, m1, m2. split_and!; [|done|done|].
  - rewrite (parse_with_File _ _ _ _ Hp).
    rewrite (parse_with_File _ _ _ _ Hp1) in Hm1.
    rewrite readlines_app_feed, fill_app, Hm1. exact Hm.
  - apply map_eq. intros k. rewrite Hk, lookup_union, Hk2.
    by destruct (last_value body k (readlines t2)) as [v|], (m1 !! k).
Qed.

End Appended.

(** X14. Parsing composes over a file cut after a line end: the dict of
    the whole file is the dict of the second part laid over the dict of
    the first part, so text added after a line end can add keys and
    replace values, and never removes a key. This holds for each of
    the three parsers. *)
Theorem parse_appended (fs : node) (p : path) (fs1 : node) (p1 : path)
    (fs2 : node) (p2 : path) (t1 t2 : string) :
  resolve fs p = Some (File (t1 +:+ String "010" t2)) →
  resolve fs1 p1 = Some (File (t1 +:+ String "010" "")) →
  resolve fs2 p2 = Some (File t2) →
  (∃ m m1 m2, parse_ds2theme fs p = Ok m ∧ parse_ds2theme fs1 p1 = Ok m1
              ∧ parse_ds2theme fs2 p2 = Ok m2 ∧ m = m2 ∪ m1)
  ∧ (∃ m m1 m2, parse_theme_ini fs p = Ok m ∧ parse_theme_ini fs1 p1 = Ok m1
                ∧ parse_theme_ini fs2 p2 = Ok m2 ∧ m = m2 ∪ m1)
  ∧ (∃ m m1 m2, parse_dialogrc fs p = Ok m ∧ parse_dialogrc fs1 p1 = Ok m1
                ∧ parse_dialogrc fs2 p2 = Ok m2 ∧ m = m2 ∪ m1).
Proof.
  intros Hp Hp1 Hp2. split_and!.
  - by apply (parse_with_appended _ ds2theme_line_total _ _ _ _ _ _ t1 t2).
  - by apply (parse_with_appended _ theme_ini_line_total _ _ _ _ _ _ t1 t2).
  - by apply (parse_with_appended _ dialogrc_line_total _ _ _ _ _ _ t1 t2).
Qed.

Lemma parse_appended_witness :
  ∃ m m1 m2,
    parse_ds2theme parts_tree (go_path "Whole") = Ok m
    ∧ parse_ds2theme parts_tree (go_path "First") = Ok m1
    ∧ parse_ds2theme parts_tree (go_path "Second") = Ok m2
    ∧ m = m2 ∪ m1.
Proof.
  apply (parse_appended parts_tree (go_path "Whole") parts_tree (go_path "First")
           parts_tree (go_path "Second")
           ("Title=first" +:+ nl +:+ "Other=x") ("Title=second" +:+ nl));
    reflexivity.
Defined.
